(** * SPIFlash: a shallow embedding of the serial NOR flash driver

    The driver of [SPIFlash.cpp] talks to the chip through three
    collaborators: the SPI bus object ([beginTransaction], [transfer],
    [endTransaction], [begin], [end]), the chip-select GPIO line
    ([pinMode], [digitalWrite]) and the chip itself, which answers every
    byte shifted out with a byte shifted in.  The embedding keeps these
    apart:

    - every call to a collaborator is an [event] of the bus transcript;
    - the chip is a function from the transcript so far and the byte on
      MOSI to the byte on MISO, so that any deterministic device (or test
      double) is an instance;
    - the driver's member functions are computations in a small monad that
      reads the transcript so far, appends the events of the call and may
      fail to return ([None]) where the source spins in [while(busy())].

    The source's busy-wait has no time limit.  Every member function that
    can reach it takes a bound [fuel] on the status polls of one busy-wait;
    a run in which the chip stays busy for [fuel] polls in a row is [None].
    What a run does once it returns is proved for every chip; that it
    returns is proved for chips that stop being busy within the bound.

    Fixed-width C++ integers are [Z] with the wrap-around written out. *)

From Stdlib Require Import ZArith List Bool Lia.
Import ListNotations.
Local Open Scope Z_scope.

Set Implicit Arguments.

(** ** Fixed-width integers *)

Definition u8 (x : Z) : Z := x mod 256.
Definition u16 (x : Z) : Z := x mod 65536.
Definition u32 (x : Z) : Z := x mod 4294967296.

(** ** The bus transcript *)

(** [HIGH] is [true], [LOW] is [false]. *)
Inductive event : Type :=
| PinModeOutput (pin : Z)               (* pinMode(pin, OUTPUT) *)
| SpiBegin                              (* _spi->begin() *)
| SpiEnd                                (* _spi->end() *)
| BeginTransaction                      (* _spi->beginTransaction(_settings) *)
| EndTransaction                        (* _spi->endTransaction() *)
| DigitalWrite (pin : Z) (level : bool) (* digitalWrite(pin, level) *)
| Transfer (mosi miso : Z).             (* miso = _spi->transfer(mosi) *)

Definition transcript := list event.

(** The command opcodes are macros of [SPIFlash.h]; the driver is
    parametric in their values. *)
Record Opcodes : Type := {
  SPIFLASH_WRITEENABLE : Z;
  SPIFLASH_BLOCKERASE_4K : Z;
  SPIFLASH_BLOCKERASE_32K : Z;
  SPIFLASH_BLOCKERASE_64K : Z;
  SPIFLASH_CHIPERASE : Z;
  SPIFLASH_STATUSREAD : Z;
  SPIFLASH_STATUSWRITE : Z;
  SPIFLASH_ARRAYREAD : Z;
  SPIFLASH_ARRAYREADLOWFREQ : Z;
  SPIFLASH_SLEEP : Z;
  SPIFLASH_WAKE : Z;
  SPIFLASH_BYTEPAGEPROGRAM : Z;
  SPIFLASH_IDREAD : Z;
  SPIFLASH_MACREAD : Z
}.

(** The device handle: the chip-select pin and the expected identifier.
    The handle's [_spi] and [_settings] are the bus itself, whose calls are
    the events above. *)
Record SPIFlash : Type := {
  _slaveSelectPin : Z;
  _jedecID : Z
}.

(** ** The monad of driver computations *)

(** A computation sees the transcript so far and returns its result with
    the events it added, or [None] when it does not return. *)
Definition M (A : Type) : Type := transcript -> option (A * transcript).

Definition ret {A} (a : A) : M A := fun _ => Some (a, []).

Definition bind {A B} (m : M A) (f : A -> M B) : M B :=
  fun h =>
    match m h with
    | None => None
    | Some (a, d1) =>
        match f a (h ++ d1) with
        | None => None
        | Some (b, d2) => Some (b, d1 ++ d2)
        end
    end.

Definition emit (e : event) : M unit := fun _ => Some (tt, [e]).

Definition hang {A} : M A := fun _ => None.

Declare Scope flash_scope.
Delimit Scope flash_scope with flash.
Notation "x <- m ;; k" := (bind m (fun x => k))
  (at level 61, m at next level, right associativity) : flash_scope.
Notation "m ;; k" := (bind m (fun _ => k))
  (at level 61, right associativity) : flash_scope.
Local Open Scope flash_scope.

(** [for (i = 0; i < n; i++) body] for a body that yields one value. *)
Fixpoint repeatM {A} (n : nat) (m : M A) : M (list A) :=
  match n with
  | O => ret []
  | S n' => x <- m ;; xs <- repeatM n' m ;; ret (x :: xs)
  end.

(** [for x in xs: body(x)], results dropped. *)
Fixpoint forM_ {A B} (xs : list A) (f : A -> M B) : M unit :=
  match xs with
  | [] => ret tt
  | x :: xs' => f x ;; forM_ xs' f
  end.

Section Driver.

Variable oc : Opcodes.
Variable chip : transcript -> Z -> Z.
Variable dev : SPIFlash.

(** [_spi->transfer(data)]: the argument is converted to [uint8_t], the
    chip's answer is a byte. *)
Definition transfer (data : Z) : M Z :=
  fun h =>
    let miso := u8 (chip h (u8 data)) in
    Some (miso, [Transfer (u8 data) miso]).

Definition select : M unit :=
  emit BeginTransaction ;;
  emit (DigitalWrite (_slaveSelectPin dev) false).

Definition unselect : M unit :=
  emit (DigitalWrite (_slaveSelectPin dev) true) ;;
  emit EndTransaction.

Definition readStatus : M Z :=
  select ;;
  transfer (SPIFLASH_STATUSREAD oc) ;;
  status <- transfer 0 ;;
  unselect ;;
  ret status.

Definition busy : M bool :=
  status <- readStatus ;;
  ret (negb (Z.land status 1 =? 0)).

(** [while(busy());] with at most [fuel] status polls. *)
Fixpoint while_busy (fuel : nat) : M unit :=
  match fuel with
  | O => hang
  | S fuel' => b <- busy ;; if b then while_busy fuel' else ret tt
  end.

(** Lines 157-159 of [command]: the busy gate, [select], the opcode. *)
Definition command_send (fuel : nat) (cmd : Z) : M unit :=
  (if negb (u8 cmd =? SPIFLASH_WAKE oc) then while_busy fuel else ret tt) ;;
  select ;;
  transfer cmd ;;
  ret tt.

(** [command(cmd, isWrite)].  The recursive call [command(SPIFLASH_WRITEENABLE)]
    takes the default [isWrite = false], so it runs lines 157-159 only. *)
Definition command (fuel : nat) (cmd : Z) (isWrite : bool) : M unit :=
  (if isWrite then command_send fuel (SPIFLASH_WRITEENABLE oc) ;; unselect
   else ret tt) ;;
  command_send fuel cmd.

Definition wakeup (fuel : nat) : M unit :=
  command fuel (SPIFLASH_WAKE oc) false ;;
  unselect.

Definition sleep (fuel : nat) : M unit :=
  command fuel (SPIFLASH_SLEEP oc) false ;;
  unselect.

Definition readDeviceId : M Z :=
  select ;;
  transfer (SPIFLASH_IDREAD oc) ;;
  hi <- transfer 0 ;;
  let jedecid := u16 (Z.shiftl hi 8) in
  lo <- transfer 0 ;;
  let jedecid := Z.lor jedecid lo in
  unselect ;;
  ret jedecid.

(** The 8 bytes stored into the static [UNIQUEID] array are returned. *)
Definition readUniqueId (fuel : nat) : M (list Z) :=
  command fuel (SPIFLASH_MACREAD oc) false ;;
  transfer 0 ;;
  transfer 0 ;;
  transfer 0 ;;
  transfer 0 ;;
  UNIQUEID <- repeatM 8 (transfer 0) ;;
  unselect ;;
  ret UNIQUEID.

Definition readByte (fuel : nat) (addr : Z) : M Z :=
  command fuel (SPIFLASH_ARRAYREADLOWFREQ oc) false ;;
  transfer (Z.shiftr addr 16) ;;
  transfer (Z.shiftr addr 8) ;;
  transfer addr ;;
  result <- transfer 0 ;;
  unselect ;;
  ret result.

(** The bytes stored into [buf[0 .. len-1]] are returned. *)
Definition readBytes (fuel : nat) (addr : Z) (len : Z) : M (list Z) :=
  command fuel (SPIFLASH_ARRAYREAD oc) false ;;
  transfer (Z.shiftr addr 16) ;;
  transfer (Z.shiftr addr 8) ;;
  transfer addr ;;
  transfer 0 ;;
  buf <- repeatM (Z.to_nat len) (transfer 0) ;;
  unselect ;;
  ret buf.

Definition writeByte (fuel : nat) (addr : Z) (byt : Z) : M unit :=
  command fuel (SPIFLASH_BYTEPAGEPROGRAM oc) true ;;
  transfer (Z.shiftr addr 16) ;;
  transfer (Z.shiftr addr 8) ;;
  transfer addr ;;
  transfer byt ;;
  unselect.

(** The bytes [buf[offset + i]] for [i = 0 .. n-1]; the buffer is the list
    of bytes behind the pointer, read as [uint8_t]. *)
Definition buf_slice (buf : list Z) (offset n : Z) : list Z :=
  map (fun i => nth (Z.to_nat (offset + Z.of_nat i)) buf 0)
      (seq 0 (Z.to_nat n)).

(** The [while (len>0)] loop of [writeBytes]; [iter] bounds the number of
    iterations. *)
Fixpoint writeBytes_loop (iter : nat) (fuel : nat) (buf : list Z)
    (addr offset len maxBytes : Z) : M unit :=
  if 0 <? len then
    match iter with
    | O => hang
    | S iter' =>
        let n := if len <=? maxBytes then len else maxBytes in
        command fuel (SPIFLASH_BYTEPAGEPROGRAM oc) true ;;
        transfer (Z.shiftr addr 16) ;;
        transfer (Z.shiftr addr 8) ;;
        transfer addr ;;
        forM_ (buf_slice buf offset n) transfer ;;
        unselect ;;
        let addr := u32 (addr + n) in
        let offset := u16 (offset + n) in
        let len := u16 (len - n) in
        let maxBytes := 256 in
        writeBytes_loop iter' fuel buf addr offset len maxBytes
    end
  else ret tt.

Definition writeBytes (fuel : nat) (addr : Z) (buf : list Z) (len : Z)
    : M unit :=
  let maxBytes := u16 (256 - addr mod 256) in
  let offset := 0 in
  writeBytes_loop (Z.to_nat len) fuel buf addr offset len maxBytes.

Definition chipErase (fuel : nat) : M unit :=
  command fuel (SPIFLASH_CHIPERASE oc) true ;;
  unselect.

Definition blockErase4K (fuel : nat) (addr : Z) : M unit :=
  command fuel (SPIFLASH_BLOCKERASE_4K oc) true ;;
  transfer (Z.shiftr addr 16) ;;
  transfer (Z.shiftr addr 8) ;;
  transfer addr ;;
  unselect.

Definition blockErase32K (fuel : nat) (addr : Z) : M unit :=
  command fuel (SPIFLASH_BLOCKERASE_32K oc) true ;;
  transfer (Z.shiftr addr 16) ;;
  transfer (Z.shiftr addr 8) ;;
  transfer addr ;;
  unselect.

Definition blockErase64K (fuel : nat) (addr : Z) : M unit :=
  command fuel (SPIFLASH_BLOCKERASE_64K oc) true ;;
  transfer (Z.shiftr addr 16) ;;
  transfer (Z.shiftr addr 8) ;;
  transfer addr ;;
  unselect.

Definition initialize (fuel : nat) : M bool :=
  emit (PinModeOutput (_slaveSelectPin dev)) ;;
  emit SpiBegin ;;
  unselect ;;
  wakeup fuel ;;
  matches <- (if _jedecID dev =? 0 then ret true
              else id <- readDeviceId ;; ret (id =? _jedecID dev)) ;;
  if (matches : bool) then
    command fuel (SPIFLASH_STATUSWRITE oc) true ;;
    transfer 0 ;;
    unselect ;;
    ret true
  else ret false.

(** The [for] loop of [found]: [todo] iterations are left, [i] is the loop
    counter; returns [deviceID] as it is when the loop is left. *)
Fixpoint found_loop (todo : nat) (i : Z) (deviceID : Z) : M Z :=
  match todo with
  | O => ret deviceID
  | S todo' =>
      idNow <- readDeviceId ;;
      if (idNow =? 0) || (idNow =? 65535)
         || ((0 <? i) && negb (idNow =? deviceID))
      then ret 0
      else found_loop todo' (u8 (i + 1)) idNow
  end.

Definition found (fuel : nat) : M bool :=
  let deviceID := 0 in
  wakeup fuel ;;
  deviceID <- found_loop 10 0 deviceID ;;
  if deviceID =? 0 then ret false else ret true.

(** The scan of [flashBuf] in [regionIsEmpty], leaving at the first byte
    that is not [0xff]. *)
Fixpoint all_ff (flashBuf : list Z) : bool :=
  match flashBuf with
  | [] => true
  | b :: rest => if negb (b =? 255) then false else all_ff rest
  end.

Definition regionIsEmpty (fuel : nat) (startAddress : Z) (length : Z)
    : M bool :=
  flashBuf <- readBytes fuel startAddress length ;;
  ret (all_ff flashBuf).

Definition end_ : M unit := emit SpiEnd.

End Driver.

(** ** Reading the transcript *)

(** A command cycle is what is exchanged while the chip is selected: the
    pairs (byte on MOSI, byte on MISO), in order. *)
Abbreviation cycle := (list (Z * Z)%type) (only parsing).

Definition mosi (c : cycle) : list Z := map fst c.
Definition miso (c : cycle) : list Z := map snd c.

Definition exchange (x : Z * Z) : event := Transfer (fst x) (snd x).

(** The events of one complete command cycle, from [select] to
    [unselect]. *)
Definition frame (dev : SPIFlash) (c : cycle) : transcript :=
  [BeginTransaction; DigitalWrite (_slaveSelectPin dev) false]
    ++ map exchange c
    ++ [DigitalWrite (_slaveSelectPin dev) true; EndTransaction].

Definition frames (dev : SPIFlash) (cs : list cycle) : transcript :=
  flat_map (frame dev) cs.

(** The events of [select] followed by the exchanges made so far in the
    cycle it opens, and the events of [unselect]. *)
Definition opened (dev : SPIFlash) (c : cycle) : transcript :=
  [BeginTransaction; DigitalWrite (_slaveSelectPin dev) false]
    ++ map exchange c.

Definition closing (dev : SPIFlash) : transcript :=
  [DigitalWrite (_slaveSelectPin dev) true; EndTransaction].

Arguments frame : simpl never.

Definition flush (cur : option cycle) : list cycle :=
  match cur with
  | Some c => [c]
  | None => []
  end.

(** The command cycles of a transcript: a cycle opens when chip-select
    goes low and closes when it goes high (or the transcript ends); bytes
    clocked while the chip is not selected belong to no cycle. *)
Fixpoint cycles_from (cur : option cycle) (t : transcript) : list cycle :=
  match t with
  | [] => flush cur
  | DigitalWrite _ false :: t' => flush cur ++ cycles_from (Some []) t'
  | DigitalWrite _ true :: t' => flush cur ++ cycles_from None t'
  | Transfer o i :: t' =>
      cycles_from (option_map (fun c => c ++ [(o, i)]) cur) t'
  | _ :: t' => cycles_from cur t'
  end.

Definition cycles (t : transcript) : list cycle := cycles_from None t.

Fixpoint keep_some {A} (l : list (option A)) : list A :=
  match l with
  | [] => []
  | Some a :: l' => a :: keep_some l'
  | None :: l' => keep_some l'
  end.

(** The opcode of a cycle is its first byte on MOSI. *)
Definition opcode_of (c : cycle) : option Z := hd_error (mosi c).

Definition has_opcode (op : Z) (c : cycle) : bool :=
  match opcode_of c with
  | Some o => o =? op
  | None => false
  end.

(** The sequence of opcodes sent in a transcript. *)
Definition cycle_opcodes (cs : list cycle) : list Z :=
  keep_some (map opcode_of cs).

Definition commands (t : transcript) : list Z := cycle_opcodes (cycles t).

(** A status poll: the status-read opcode and one filler byte, answered
    with [status]. *)
Definition status_poll (oc : Opcodes) (status : Z) (c : cycle) : Prop :=
  exists r, c = [(SPIFLASH_STATUSREAD oc, r); (0, status)].

(** A completed busy-wait: one or more status polls, every one but the
    last answered busy (bit 0 set), the last one answered not busy. *)
Inductive busy_wait (oc : Opcodes) : list cycle -> Prop :=
| busy_wait_ready c status :
    status_poll oc status c -> Z.land status 1 = 0 ->
    busy_wait oc [c]
| busy_wait_again c status cs :
    status_poll oc status c -> Z.land status 1 <> 0 ->
    busy_wait oc cs ->
    busy_wait oc (c :: cs).

(** What [command] puts on the bus before it selects the chip for a gated
    opcode: a busy-wait, preceded for a write command by a busy-wait and
    the write-enable cycle. *)
Inductive prelude (oc : Opcodes) : bool -> list cycle -> Prop :=
| prelude_plain g :
    busy_wait oc g -> prelude oc false g
| prelude_write g1 r g2 :
    busy_wait oc g1 -> busy_wait oc g2 ->
    prelude oc true (g1 ++ [[(SPIFLASH_WRITEENABLE oc, r)]] ++ g2).

(** An identifier-read cycle and the 16-bit identifier it returns, high
    byte first. *)
Definition id_cycle (oc : Opcodes) (id : Z) (c : cycle) : Prop :=
  exists r hi lo,
    c = [(SPIFLASH_IDREAD oc, r); (0, hi); (0, lo)]
    /\ 0 <= hi < 256 /\ 0 <= lo < 256 /\ id = hi * 256 + lo.

Definition id_of (oc : Opcodes) (c : cycle) : option Z :=
  match c with
  | [(op, _); (_, hi); (_, lo)] =>
      if op =? SPIFLASH_IDREAD oc then Some (hi * 256 + lo) else None
  | _ => None
  end.

(** The identifiers read in a transcript, in order. *)
Definition id_reads (oc : Opcodes) (t : transcript) : list Z :=
  keep_some (map (id_of oc) (cycles t)).

(** The status-register write cycles of a transcript. *)
Definition status_writes (oc : Opcodes) (t : transcript) : list cycle :=
  filter (has_opcode (SPIFLASH_STATUSWRITE oc)) (cycles t).

(** What [found] asks of an identifier, [first] being the first one read. *)
Definition valid_id (first id : Z) : Prop :=
  id <> 0 /\ id <> 65535 /\ id = first.

(** The three address bytes, most significant first. *)
Definition addr_bytes (addr : Z) : list Z :=
  [Z.land (Z.shiftr addr 16) 255; Z.land (Z.shiftr addr 8) 255;
   Z.land addr 255].

Definition addr_of_bytes (a2 a1 a0 : Z) : Z := a2 * 65536 + a1 * 256 + a0.

(** A page-program chunk as seen on the bus: the 24-bit start address and
    the payload bytes. *)
Abbreviation chunk := (Z * list Z)%type (only parsing).

Definition chunk_of (oc : Opcodes) (c : cycle) : option chunk :=
  match mosi c with
  | op :: a2 :: a1 :: a0 :: payload =>
      if op =? SPIFLASH_BYTEPAGEPROGRAM oc
      then Some (addr_of_bytes a2 a1 a0, payload)
      else None
  | _ => None
  end.

(** The page-program chunks issued in a transcript, in issue order. *)
Definition chunks (oc : Opcodes) (t : transcript) : list chunk :=
  keep_some (map (chunk_of oc) (cycles t)).

Definition chunk_start (k : chunk) : Z := fst k.
Definition chunk_len (k : chunk) : Z := Z.of_nat (length (snd k)).

(** The number of payload bytes of a list of chunks. *)
Definition total_len (ks : list chunk) : Z :=
  fold_right (fun k acc => chunk_len k + acc) 0 ks.

(** The payload bytes of a list of chunks, in issue order. *)
Definition payloads (ks : list chunk) : list Z := flat_map snd ks.

(** A chunk that starts on a page boundary and is at most a page long. *)
Definition page_aligned (k : chunk) : Prop :=
  chunk_start k mod 256 = 0 /\ 1 <= chunk_len k <= 256.

(** A chunk covering [start, start+len) lies in one 256-byte page. *)
Definition in_one_page (k : chunk) : Prop :=
  chunk_start k / 256 = (chunk_start k + chunk_len k - 1) / 256.

(** The chunks cover consecutive addresses from [a] on (the address bus is
    24 bits wide). *)
Fixpoint consecutive_from (a : Z) (ks : list chunk) : Prop :=
  match ks with
  | [] => True
  | k :: ks' =>
      chunk_start k = a mod 16777216 /\ consecutive_from (a + chunk_len k) ks'
  end.

(** The cycles of the [writeBytes] loop entered with [addr], [offset] and
    [len], when [maxBytes] is what is left of the page of [addr]: for each
    iteration the prelude of a write command and the program cycle. *)
Inductive programmed (oc : Opcodes) (buf : list Z)
  : Z -> Z -> Z -> list cycle -> Prop :=
| programmed_done addr offset :
    programmed oc buf addr offset 0 []
| programmed_chunk addr offset len n pre c rest :
    0 < len ->
    n = Z.min len (256 - addr mod 256) ->
    prelude oc true pre ->
    mosi c = SPIFLASH_BYTEPAGEPROGRAM oc
               :: addr_bytes addr ++ map u8 (buf_slice buf offset n) ->
    programmed oc buf (u32 (addr + n)) (offset + n) (len - n) rest ->
    programmed oc buf addr offset len (pre ++ c :: rest).

(** The chunks such a loop issues. *)
Inductive planned (buf : list Z) : Z -> Z -> Z -> list chunk -> Prop :=
| planned_done addr offset :
    planned buf addr offset 0 []
| planned_chunk addr offset len n ks :
    0 < len ->
    n = Z.min len (256 - addr mod 256) ->
    planned buf (u32 (addr + n)) (offset + n) (len - n) ks ->
    planned buf addr offset len
            ((addr mod 16777216, map u8 (buf_slice buf offset n)) :: ks).

(** ** The bus discipline *)

Record bus : Type := {
  in_transaction : bool;   (* between beginTransaction and endTransaction *)
  chip_selected : bool     (* chip-select is low *)
}.

Definition released : bus :=
  {| in_transaction := false; chip_selected := false |}.

(** One event seen by the bus; a byte transfer outside an acquired bus is a
    violation ([None]). *)
Definition bus_step (b : bus) (e : event) : option bus :=
  match e with
  | BeginTransaction =>
      Some {| in_transaction := true; chip_selected := chip_selected b |}
  | EndTransaction =>
      Some {| in_transaction := false; chip_selected := chip_selected b |}
  | DigitalWrite _ level =>
      Some {| in_transaction := in_transaction b;
              chip_selected := negb level |}
  | Transfer _ _ =>
      if in_transaction b && chip_selected b then Some b else None
  | _ => Some b
  end.

Fixpoint bus_run (b : bus) (t : transcript) : option bus :=
  match t with
  | [] => Some b
  | e :: t' =>
      match bus_step b e with
      | Some b' => bus_run b' t'
      | None => None
      end
  end.

(** ** Well-formed opcode tables *)

Definition opcode_list (oc : Opcodes) : list Z :=
  [SPIFLASH_WRITEENABLE oc; SPIFLASH_BLOCKERASE_4K oc;
   SPIFLASH_BLOCKERASE_32K oc; SPIFLASH_BLOCKERASE_64K oc;
   SPIFLASH_CHIPERASE oc; SPIFLASH_STATUSREAD oc; SPIFLASH_STATUSWRITE oc;
   SPIFLASH_ARRAYREAD oc; SPIFLASH_ARRAYREADLOWFREQ oc; SPIFLASH_SLEEP oc;
   SPIFLASH_WAKE oc; SPIFLASH_BYTEPAGEPROGRAM oc; SPIFLASH_IDREAD oc;
   SPIFLASH_MACREAD oc].

Definition is_byte (x : Z) : bool := (0 <=? x) && (x <? 256).

Fixpoint distinctb (l : list Z) : bool :=
  match l with
  | [] => true
  | x :: l' => negb (existsb (Z.eqb x) l') && distinctb l'
  end.

(** Every opcode is one byte and no two commands share an opcode. *)
Definition opcodes_ok (oc : Opcodes) : bool :=
  forallb is_byte (opcode_list oc) && distinctb (opcode_list oc).

(** The command set of the Winbond W25X40CL data sheet that the source
    cites. *)
Definition w25x_opcodes : Opcodes := {|
  SPIFLASH_WRITEENABLE := 0x06;
  SPIFLASH_BLOCKERASE_4K := 0x20;
  SPIFLASH_BLOCKERASE_32K := 0x52;
  SPIFLASH_BLOCKERASE_64K := 0xD8;
  SPIFLASH_CHIPERASE := 0x60;
  SPIFLASH_STATUSREAD := 0x05;
  SPIFLASH_STATUSWRITE := 0x01;
  SPIFLASH_ARRAYREAD := 0x0B;
  SPIFLASH_ARRAYREADLOWFREQ := 0x03;
  SPIFLASH_SLEEP := 0xB9;
  SPIFLASH_WAKE := 0xAB;
  SPIFLASH_BYTEPAGEPROGRAM := 0x02;
  SPIFLASH_IDREAD := 0x9F;
  SPIFLASH_MACREAD := 0x4B
|}.

(** ** When the busy-wait ends *)

(** The busy-wait entered after transcript [h] ends within [fuel] polls. *)
Definition gate_opens (oc : Opcodes) (chip : transcript -> Z -> Z)
    (dev : SPIFlash) (fuel : nat) (h : transcript) : Prop :=
  while_busy oc chip dev fuel h <> None.

(** The chip never stays busy for [fuel] polls in a row. *)
Definition responsive (oc : Opcodes) (chip : transcript -> Z -> Z)
    (dev : SPIFlash) (fuel : nat) : Prop :=
  forall h, gate_opens oc chip dev fuel h.

(** A computation that returns from every transcript. *)
Definition total {A} (m : M A) : Prop := forall h, m h <> None.

(** ** The public operations *)

Inductive call : Type :=
| Initialize
| ReadDeviceId
| ReadUniqueId
| ReadByte (addr : Z)
| ReadBytes (addr len : Z)
| ReadStatus
| Busy
| WriteByte (addr byt : Z)
| WriteBytes (addr : Z) (buf : list Z) (len : Z)
| ChipErase
| BlockErase4K (addr : Z)
| BlockErase32K (addr : Z)
| BlockErase64K (addr : Z)
| Found
| RegionIsEmpty (startAddress length : Z)
| Sleep
| Wakeup
| End.

(** Run a public operation, dropping its result. *)
Definition perform (oc : Opcodes) (chip : transcript -> Z -> Z)
    (dev : SPIFlash) (fuel : nat) (c : call) : M unit :=
  match c with
  | Initialize => initialize oc chip dev fuel ;; ret tt
  | ReadDeviceId => readDeviceId oc chip dev ;; ret tt
  | ReadUniqueId => readUniqueId oc chip dev fuel ;; ret tt
  | ReadByte addr => readByte oc chip dev fuel addr ;; ret tt
  | ReadBytes addr len => readBytes oc chip dev fuel addr len ;; ret tt
  | ReadStatus => readStatus oc chip dev ;; ret tt
  | Busy => busy oc chip dev ;; ret tt
  | WriteByte addr byt => writeByte oc chip dev fuel addr byt
  | WriteBytes addr buf len => writeBytes oc chip dev fuel addr buf len
  | ChipErase => chipErase oc chip dev fuel
  | BlockErase4K addr => blockErase4K oc chip dev fuel addr
  | BlockErase32K addr => blockErase32K oc chip dev fuel addr
  | BlockErase64K addr => blockErase64K oc chip dev fuel addr
  | Found => found oc chip dev fuel ;; ret tt
  | RegionIsEmpty a l => regionIsEmpty oc chip dev fuel a l ;; ret tt
  | Sleep => sleep oc chip dev fuel
  | Wakeup => wakeup oc chip dev fuel
  | End => end_
  end.




(** The addressed operations that issue one command: the opcode, the
    address, and the bytes sent after the address. *)
Definition addressed (oc : Opcodes) (c : call) : option (Z * Z * list Z) :=
  match c with
  | ReadByte addr => Some (SPIFLASH_ARRAYREADLOWFREQ oc, addr, [0])
  | ReadBytes addr len =>
      Some (SPIFLASH_ARRAYREAD oc, addr, repeat 0 (S (Z.to_nat len)))
  | WriteByte addr byt => Some (SPIFLASH_BYTEPAGEPROGRAM oc, addr, [u8 byt])
  | BlockErase4K addr => Some (SPIFLASH_BLOCKERASE_4K oc, addr, [])
  | BlockErase32K addr => Some (SPIFLASH_BLOCKERASE_32K oc, addr, [])
  | BlockErase64K addr => Some (SPIFLASH_BLOCKERASE_64K oc, addr, [])
  | _ => None
  end.

(** Bits 23..16, 15..8 and 7..0 of a 24-bit address. *)
Definition msb_first (addr : Z) : list Z :=
  [addr / 65536; (addr / 256) mod 256; addr mod 256].

(** The bytes of a page-program cycle for a chunk. *)
Definition program_bytes (oc : Opcodes) (k : chunk) : list Z :=
  SPIFLASH_BYTEPAGEPROGRAM oc :: msb_first (chunk_start k) ++ snd k.

(** ** A memory that stores what is programmed *)

Definition memory : Type := Z -> Z.

Fixpoint store_bytes (mem : memory) (a : Z) (bytes : list Z) : memory :=
  match bytes with
  | [] => mem
  | b :: rest =>
      store_bytes (fun x => if x =? a mod 16777216 then b else mem x)
                  (a + 1) rest
  end.

Definition program_chunk (mem : memory) (k : chunk) : memory :=
  store_bytes mem (chunk_start k) (snd k).

Definition program_chunks (mem : memory) (ks : list chunk) : memory :=
  fold_left program_chunk ks mem.

Definition read_back (mem : memory) (a : Z) (n : nat) : list Z :=
  map (fun i => mem ((a + Z.of_nat i) mod 16777216)) (seq 0 n).

(** ** Test doubles *)

(** The MOSI bytes of the cycle in progress, if the chip is selected. *)
Definition in_progress (h : transcript) : option (list Z) :=
  fold_left
    (fun cur e =>
       match e with
       | DigitalWrite _ false => Some []
       | DigitalWrite _ true => None
       | Transfer o _ => option_map (fun c => c ++ [o]) cur
       | _ => cur
       end) h None.

(** A read-only chip that is never busy: it answers the identifier read
    with [id] (high byte first) and the two array reads from [mem]. *)
Definition rom_chip (oc : Opcodes) (id : Z) (mem : Z -> Z)
    (h : transcript) (out : Z) : Z :=
  match in_progress h with
  | Some (op :: sent) =>
      if op =? SPIFLASH_IDREAD oc then
        match sent with
        | [] => id / 256
        | _ => id mod 256
        end
      else if op =? SPIFLASH_ARRAYREAD oc then
        match sent with
        | a2 :: a1 :: a0 :: _ :: data =>
            mem (addr_of_bytes a2 a1 a0 + Z.of_nat (length data))
        | _ => 0
        end
      else if op =? SPIFLASH_ARRAYREADLOWFREQ oc then
        match sent with
        | a2 :: a1 :: a0 :: data =>
            mem (addr_of_bytes a2 a1 a0 + Z.of_nat (length data))
        | _ => 0
        end
      else 0
  | _ => 0
  end.

(** A chip that answers every byte with zero. *)
Definition idle_chip (h : transcript) (out : Z) : Z := 0.

(** A chip that reports busy on the first status poll after any other
    command and not busy on the next one. *)
Definition slow_chip (oc : Opcodes) (h : transcript) (out : Z) : Z :=
  match in_progress h with
  | Some [op] =>
      if op =? SPIFLASH_STATUSREAD oc then
        match rev (commands h) with
        | _ :: prev :: _ =>
            if prev =? SPIFLASH_STATUSREAD oc then 0 else 1
        | _ => 1
        end
      else 0
  | _ => 0
  end.

Definition test_dev (id : Z) : SPIFlash :=
  {| _slaveSelectPin := 8; _jedecID := id |}.

(** A chip whose every answer has bit 0 set, as when the MISO line floats
    high: each status poll reads busy. *)
Definition always_busy (chip : transcript -> Z -> Z) : Prop :=
  forall h out, Z.land (u8 (chip h out)) 1 <> 0.

(** A chip that answers every byte with [0xFF]. *)
Definition stuck_chip (h : transcript) (out : Z) : Z := 255.

(** The public operations that reach the busy-wait of [command] whatever
    the chip answers. *)
Definition waits (c : call) : bool :=
  match c with
  | ReadUniqueId | ReadByte _ | ReadBytes _ _ | WriteByte _ _ | ChipErase
  | BlockErase4K _ | BlockErase32K _ | BlockErase64K _ | RegionIsEmpty _ _
  | Sleep => true
  | WriteBytes _ _ len => 0 <? len
  | _ => false
  end.

(** The public operations that never reach it. *)
Definition never_waits (c : call) : bool :=
  match c with
  | ReadDeviceId | ReadStatus | Busy | Found | Wakeup | End => true
  | WriteBytes _ _ len => negb (0 <? len)
  | _ => false
  end.

(** The bus as [select] leaves it. *)
Definition acquired : bus :=
  {| in_transaction := true; chip_selected := true |}.

(** The chunks between the first and the last one. *)
Definition middle {A} (l : list A) : list A := removelast (tl l).

(** ** A chip that honours the data sheet *)

(** Status polls are answered not busy. *)
Definition never_busy (oc : Opcodes) (chip : transcript -> Z -> Z) : Prop :=
  forall h out,
    in_progress h = Some [SPIFLASH_STATUSREAD oc] ->
    Z.land (u8 (chip h out)) 1 = 0.

(** The memory of a chip that held [mem] and has seen the page programs
    of [h]. *)
Definition contents (oc : Opcodes) (mem : memory) (h : transcript) : memory :=
  program_chunks mem (chunks oc h).

(** A fast read streams the memory from the address sent on, after one
    dummy byte. *)
Definition streams_memory (oc : Opcodes) (mem : memory)
    (chip : transcript -> Z -> Z) : Prop :=
  forall h out a2 a1 a0 x data,
    in_progress h
    = Some (SPIFLASH_ARRAYREAD oc :: a2 :: a1 :: a0 :: x :: data) ->
    u8 (chip h out)
    = u8 (contents oc mem h
            ((addr_of_bytes a2 a1 a0 + Z.of_nat (length data))
             mod 16777216)).

(** The least such chip: it answers fast reads from its memory and every
    other byte with zero. *)
Definition flash_chip (oc : Opcodes) (mem : memory)
    (h : transcript) (out : Z) : Z :=
  match in_progress h with
  | Some (op :: a2 :: a1 :: a0 :: _ :: data) =>
      if op =? SPIFLASH_ARRAYREAD oc
      then contents oc mem h
             ((addr_of_bytes a2 a1 a0 + Z.of_nat (length data))
              mod 16777216)
      else 0
  | _ => 0
  end.

(** * Facts *)

(** ** Fixed-width arithmetic *)

Lemma u8_range x : 0 <= u8 x < 256.
Proof. unfold u8. apply Z.mod_pos_bound. lia. Qed.

Lemma u8_small x : 0 <= x < 256 -> u8 x = x.
Proof. intros H. unfold u8. apply Z.mod_small. exact H. Qed.

Lemma u8_land x : u8 x = Z.land x 255.
Proof. unfold u8. change 255 with (Z.ones 8). rewrite Z.land_ones by lia. reflexivity. Qed.

Lemma u32_mod_256 x : u32 x mod 256 = x mod 256.
Proof.
  unfold u32. apply Z.mod_mod_divide. exists 16777216. reflexivity.
Qed.

Lemma u32_mod_24 x : u32 x mod 16777216 = x mod 16777216.
Proof.
  unfold u32. apply Z.mod_mod_divide. exists 256. reflexivity.
Qed.

Lemma is_byte_spec x : is_byte x = true <-> 0 <= x < 256.
Proof. unfold is_byte. rewrite andb_true_iff, Z.leb_le, Z.ltb_lt. tauto. Qed.

(** ** Opcode tables *)

Lemma distinctb_nth l :
  distinctb l = true ->
  forall i j x y,
    nth_error l i = Some x -> nth_error l j = Some y -> i <> j -> x <> y.
Proof.
  induction l as [|a l IH]; intros Hd i j x y Hi Hj Hij.
  - destruct i; discriminate.
  - simpl in Hd. apply andb_true_iff in Hd. destruct Hd as [Ha Hl].
    apply negb_true_iff in Ha.
    assert (Hnot : forall z, In z l -> a <> z).
    { intros z Hz E. subst z.
      assert (existsb (Z.eqb a) l = true).
      { apply existsb_exists. exists a. split; [exact Hz | apply Z.eqb_refl]. }
      congruence. }
    destruct i as [|i], j as [|j]; simpl in Hi, Hj.
    + congruence.
    + injection Hi as <-. apply Hnot. eapply nth_error_In; eassumption.
    + injection Hj as <-. intros E. symmetry in E. revert E.
      apply Hnot. eapply nth_error_In; eassumption.
    + eapply IH; eauto.
Qed.

Lemma opcodes_ok_neq oc i j x y :
  opcodes_ok oc = true ->
  nth_error (opcode_list oc) i = Some x ->
  nth_error (opcode_list oc) j = Some y ->
  i <> j -> x <> y.
Proof.
  intros H. apply andb_true_iff in H. destruct H as [_ H].
  apply distinctb_nth. exact H.
Qed.

Lemma opcodes_ok_byte oc x :
  opcodes_ok oc = true -> In x (opcode_list oc) -> u8 x = x.
Proof.
  intros H Hx. apply andb_true_iff in H. destruct H as [H _].
  rewrite forallb_forall in H. apply u8_small, is_byte_spec, H, Hx.
Qed.

Ltac index_in x l :=
  lazymatch l with
  | x :: _ => constr:(O)
  | _ :: ?t => let i := index_in x t in constr:(S i)
  end.

(** Solves [SPIFLASH_A oc <> SPIFLASH_B oc] from [opcodes_ok oc = true]. *)
Ltac op_neq :=
  lazymatch goal with
  | H : opcodes_ok ?oc = true |- ?x <> ?y =>
      let l := eval cbv [opcode_list] in (opcode_list oc) in
      let i := index_in x l in
      let j := index_in y l in
      exact (@opcodes_ok_neq oc i j x y H eq_refl eq_refl
               ltac:(discriminate))
  end.

(** Solves [u8 (SPIFLASH_A oc) = SPIFLASH_A oc]. *)
Ltac op_byte :=
  lazymatch goal with
  | H : opcodes_ok ?oc = true |- u8 ?x = ?x =>
      apply (@opcodes_ok_byte oc x H); simpl; tauto
  end.

(** ** The monad *)

Lemma bind_Some {A B} (m : M A) (f : A -> M B) h b d :
  bind m f h = Some (b, d) ->
  exists a d1 d2,
    m h = Some (a, d1) /\ f a (h ++ d1) = Some (b, d2) /\ d = d1 ++ d2.
Proof.
  unfold bind. destruct (m h) as [[a d1]|]; [|discriminate].
  destruct (f a (h ++ d1)) as [[b' d2]|] eqn:Hf; [|discriminate].
  intros E. injection E as <- <-. exists a, d1, d2. auto.
Qed.

Lemma bind_run {A B} (m : M A) (f : A -> M B) h a d1 b d2 :
  m h = Some (a, d1) -> f a (h ++ d1) = Some (b, d2) ->
  bind m f h = Some (b, d1 ++ d2).
Proof. intros Hm Hf. unfold bind. rewrite Hm, Hf. reflexivity. Qed.

Lemma bind_None_l {A B} (m : M A) (f : A -> M B) h :
  m h = None -> bind m f h = None.
Proof. intros Hm. unfold bind. rewrite Hm. reflexivity. Qed.

(** ** Frames and cycles *)

Section Transcripts.

Variable dev : SPIFlash.

Lemma frames_app cs1 cs2 :
  frames dev (cs1 ++ cs2) = frames dev cs1 ++ frames dev cs2.
Proof. unfold frames. apply flat_map_app. Qed.

Lemma frames_one c : frames dev [c] = frame dev c.
Proof. unfold frames, flat_map. apply app_nil_r. Qed.

Lemma cycles_from_exchanges acc c t :
  cycles_from (Some acc) (map exchange c ++ t)
  = cycles_from (Some (acc ++ c)) t.
Proof.
  revert acc. induction c as [|[o i] c IH]; intros acc; simpl.
  - rewrite app_nil_r. reflexivity.
  - rewrite IH, <- app_assoc. reflexivity.
Qed.

Lemma cycles_from_frame c t :
  cycles_from None (frame dev c ++ t) = c :: cycles_from None t.
Proof.
  unfold frame. cbn [app cycles_from flush].
  rewrite <- app_assoc, cycles_from_exchanges. reflexivity.
Qed.

Lemma cycles_frames_app cs t :
  cycles (frames dev cs ++ t) = cs ++ cycles t.
Proof.
  unfold cycles. induction cs as [|c cs IH].
  - reflexivity.
  - change (frames dev (c :: cs)) with (frame dev c ++ frames dev cs).
    rewrite <- app_assoc, cycles_from_frame, IH. reflexivity.
Qed.

Lemma cycles_frames cs : cycles (frames dev cs) = cs.
Proof.
  rewrite <- (app_nil_r (frames dev cs)), cycles_frames_app.
  apply app_nil_r.
Qed.

Lemma bus_run_app b t1 t2 :
  bus_run b (t1 ++ t2)
  = match bus_run b t1 with Some b' => bus_run b' t2 | None => None end.
Proof.
  revert b. induction t1 as [|e t1 IH]; intros b; simpl.
  - reflexivity.
  - destruct (bus_step b e); [apply IH | reflexivity].
Qed.

Lemma bus_run_exchanges c :
  bus_run {| in_transaction := true; chip_selected := true |}
          (map exchange c)
  = Some {| in_transaction := true; chip_selected := true |}.
Proof. induction c as [|x c IH]; simpl; [reflexivity | exact IH]. Qed.

Lemma bus_run_frame c : bus_run released (frame dev c) = Some released.
Proof.
  unfold frame. cbn [app bus_run bus_step in_transaction chip_selected
                     released negb].
  rewrite bus_run_app, bus_run_exchanges. reflexivity.
Qed.

Lemma bus_run_frames cs : bus_run released (frames dev cs) = Some released.
Proof.
  induction cs as [|c cs IH].
  - reflexivity.
  - change (frames dev (c :: cs)) with (frame dev c ++ frames dev cs).
    rewrite bus_run_app, bus_run_frame. exact IH.
Qed.

End Transcripts.

(** ** Runs of the primitives *)

Section Runs.

Variable oc : Opcodes.
Variable chip : transcript -> Z -> Z.
Variable dev : SPIFlash.
Hypothesis Hoc : opcodes_ok oc = true.

Lemma frame_opened c : frame dev c = opened dev c ++ closing dev.
Proof. unfold frame, opened, closing. rewrite <- app_assoc. reflexivity. Qed.

Lemma opened_app c xs :
  opened dev (c ++ xs) = opened dev c ++ map exchange xs.
Proof. unfold opened. rewrite map_app, app_assoc. reflexivity. Qed.

Lemma transfer_run x h :
  transfer chip x h
  = Some (u8 (chip h (u8 x)), [exchange (u8 x, u8 (chip h (u8 x)))]).
Proof. reflexivity. Qed.

Lemma transfer_Some x h r d :
  transfer chip x h = Some (r, d) ->
  d = [exchange (u8 x, r)] /\ 0 <= r < 256.
Proof.
  rewrite transfer_run. intros E. injection E as <- <-.
  split; [reflexivity | apply u8_range].
Qed.

Lemma select_run h : select dev h = Some (tt, opened dev []).
Proof. reflexivity. Qed.

Lemma unselect_run h : unselect dev h = Some (tt, closing dev).
Proof. reflexivity. Qed.

(** The source's [command] calls itself for the write-enable; the model's
    unrolling agrees with that recursive call. *)
Lemma command_recursive_call fuel cmd h :
  command oc chip dev fuel cmd true h
  = ((command oc chip dev fuel (SPIFLASH_WRITEENABLE oc) false ;;
      unselect dev) ;;
     command_send oc chip dev fuel cmd) h.
Proof.
  cbv [command bind ret]. rewrite app_nil_r.
  destruct (command_send oc chip dev fuel (SPIFLASH_WRITEENABLE oc) h)
    as [[u d]|]; reflexivity.
Qed.

Lemma readStatus_run h :
  exists r status,
    readStatus oc chip dev h
    = Some (status, frame dev [(SPIFLASH_STATUSREAD oc, r); (0, status)])
    /\ 0 <= status < 256.
Proof.
  assert (E : u8 (SPIFLASH_STATUSREAD oc) = SPIFLASH_STATUSREAD oc)
    by op_byte.
  do 2 eexists. split.
  - cbv [readStatus bind select unselect emit ret transfer]. rewrite E.
    reflexivity.
  - apply u8_range.
Qed.

Lemma busy_run h :
  exists r status,
    busy oc chip dev h
    = Some (negb (Z.land status 1 =? 0),
            frame dev [(SPIFLASH_STATUSREAD oc, r); (0, status)])
    /\ 0 <= status < 256.
Proof.
  destruct (readStatus_run h) as (r & status & E & Hs).
  exists r, status. split; [|exact Hs].
  unfold busy. erewrite bind_run; [|exact E|reflexivity].
  rewrite app_nil_r. reflexivity.
Qed.

Lemma while_busy_Some fuel : forall h u d,
  while_busy oc chip dev fuel h = Some (u, d) ->
  exists g, d = frames dev g /\ busy_wait oc g /\ (length g <= fuel)%nat.
Proof.
  induction fuel as [|fuel IH]; intros h u d H; simpl in H.
  - discriminate.
  - apply bind_Some in H. destruct H as (b & d1 & d2 & Hb & Hk & ->).
    destruct (busy_run h) as (r & status & E & _).
    rewrite E in Hb. injection Hb as <- <-.
    destruct (Z.land status 1 =? 0) eqn:Hbit; simpl in Hk.
    + injection Hk as _ <-. apply Z.eqb_eq in Hbit.
      exists [[(SPIFLASH_STATUSREAD oc, r); (0, status)]].
      rewrite frames_one, app_nil_r. repeat split.
      * eapply busy_wait_ready; [exists r; reflexivity | exact Hbit].
      * simpl. lia.
    + apply Z.eqb_neq in Hbit.
      apply IH in Hk. destruct Hk as (g & -> & Hg & Hlen).
      exists ([(SPIFLASH_STATUSREAD oc, r); (0, status)] :: g).
      repeat split.
      * eapply busy_wait_again; [exists r; reflexivity | exact Hbit | exact Hg].
      * simpl. lia.
Qed.

Lemma while_busy_more fuel : forall fuel' h r,
  (fuel <= fuel')%nat ->
  while_busy oc chip dev fuel h = Some r ->
  while_busy oc chip dev fuel' h = Some r.
Proof.
  induction fuel as [|fuel IH]; intros fuel' h r Hle H; simpl in H.
  - discriminate.
  - destruct fuel' as [|fuel']; [lia|]. simpl.
    unfold bind in *. destruct (busy oc chip dev h) as [[b d1]|]; [|discriminate].
    destruct b; [|exact H].
    destruct (while_busy oc chip dev fuel (h ++ d1)) as [r'|] eqn:E;
      [|discriminate].
    rewrite (IH fuel' _ r' ltac:(lia) E). exact H.
Qed.

Lemma repeatM_transfer_Some n : forall h rs d,
  repeatM n (transfer chip 0) h = Some (rs, d) ->
  d = map exchange (map (pair 0) rs)
  /\ length rs = n /\ Forall (fun r => 0 <= r < 256) rs.
Proof.
  induction n as [|n IH]; intros h rs d H; simpl in H.
  - injection H as <- <-. auto.
  - apply bind_Some in H. destruct H as (r & d1 & d2 & Hr & H & ->).
    apply bind_Some in H. destruct H as (rs' & d3 & d4 & Hrs & H & ->).
    injection H as <- <-.
    apply transfer_Some in Hr. destruct Hr as [-> Hr].
    apply IH in Hrs. destruct Hrs as (-> & <- & Hall).
    rewrite app_nil_r. auto.
Qed.

Lemma forM_transfer_Some xs : forall h u d,
  forM_ xs (transfer chip) h = Some (u, d) ->
  exists rs,
    d = map exchange (combine (map u8 xs) rs) /\ length rs = length xs.
Proof.
  induction xs as [|x xs IH]; intros h u d H; simpl in H.
  - injection H as _ <-. exists []. auto.
  - apply bind_Some in H. destruct H as (r & d1 & d2 & Hr & H & ->).
    apply transfer_Some in Hr. destruct Hr as [-> Hr].
    apply IH in H. destruct H as (rs & -> & Hlen).
    exists (r :: rs). simpl. auto.
Qed.

(** Inverts a run of straight-line code into the runs of its steps. *)
Ltac minv :=
  repeat match goal with
  | H : bind _ _ _ = Some _ |- _ =>
      let a := fresh "a" in
      let d1 := fresh "d" in
      let d2 := fresh "d" in
      let H1 := fresh "Hm" in
      let H2 := fresh "Hk" in
      apply bind_Some in H; destruct H as (a & d1 & d2 & H1 & H2 & ->);
      cbv beta in H2
  | H : transfer _ _ _ = Some _ |- _ =>
      let Hr := fresh "Hr" in
      apply transfer_Some in H; destruct H as [-> Hr]
  | H : select _ _ = Some _ |- _ =>
      rewrite select_run in H; injection H as ? ?; subst
  | H : unselect _ _ = Some _ |- _ =>
      rewrite unselect_run in H; injection H as ? ?; subst
  | H : ret _ _ = Some _ |- _ =>
      unfold ret in H; injection H as ? ?; subst
  | H : emit _ _ = Some _ |- _ =>
      unfold emit in H; injection H as ? ?; subst
  | H : repeatM _ (transfer _ 0) _ = Some _ |- _ =>
      let Hl := fresh "Hlen" in
      let Hb := fresh "Hbytes" in
      apply repeatM_transfer_Some in H; destruct H as (-> & Hl & Hb)
  | H : forM_ _ (transfer _) _ = Some _ |- _ =>
      let rs := fresh "rs" in
      let Hl := fresh "Hlen" in
      apply forM_transfer_Some in H; destruct H as (rs & -> & Hl)
  end.

Lemma opened_absorb c x t :
  opened dev c ++ exchange x :: t = opened dev (c ++ [x]) ++ t.
Proof. rewrite opened_app, <- app_assoc. reflexivity. Qed.

Lemma opened_absorb_map c xs t :
  opened dev c ++ map exchange xs ++ t = opened dev (c ++ xs) ++ t.
Proof. rewrite opened_app, <- app_assoc. reflexivity. Qed.

Lemma opened_close pre c :
  frames dev pre ++ opened dev c ++ closing dev = frames dev (pre ++ [c]).
Proof. rewrite frames_app, frames_one, frame_opened. reflexivity. Qed.

Lemma opened_close_app pre c rest :
  frames dev pre ++ opened dev c ++ closing dev ++ frames dev rest
  = frames dev (pre ++ c :: rest).
Proof.
  change (c :: rest) with ([c] ++ rest).
  rewrite !frames_app, frames_one, frame_opened, <- !app_assoc.
  reflexivity.
Qed.

(** Folds the events of a run back into frames. *)
Ltac reframe :=
  rewrite <- ?app_assoc; cbn [app];
  repeat (first [rewrite opened_absorb | rewrite opened_absorb_map];
          cbn [app]);
  rewrite ?app_nil_r.

(** [command_send]: a gated opcode follows a completed busy-wait, the
    wake-up opcode follows nothing. *)
Lemma command_send_Some fuel cmd h u d :
  command_send oc chip dev fuel cmd h = Some (u, d) ->
  exists g r,
    d = frames dev g ++ opened dev [(u8 cmd, r)]
    /\ 0 <= r < 256
    /\ (if u8 cmd =? SPIFLASH_WAKE oc then g = []
        else busy_wait oc g /\ (length g <= fuel)%nat).
Proof.
  unfold command_send. intros H. minv.
  match goal with Hr : 0 <= ?r < 256 |- _ => rename r into miso0 end.
  destruct (u8 cmd =? SPIFLASH_WAKE oc) eqn:Hw; simpl in Hm.
  - minv. exists [], miso0. auto.
  - apply while_busy_Some in Hm. destruct Hm as (g & -> & Hg & Hlen).
    exists g, miso0. rewrite app_nil_r. auto.
Qed.

Lemma command_Some fuel cmd isWrite h u d :
  u8 cmd <> SPIFLASH_WAKE oc ->
  command oc chip dev fuel cmd isWrite h = Some (u, d) ->
  exists pre r,
    d = frames dev pre ++ opened dev [(u8 cmd, r)]
    /\ prelude oc isWrite pre /\ 0 <= r < 256.
Proof.
  intros Hcmd H. unfold command in H. apply Z.eqb_neq in Hcmd.
  assert (Ewe : u8 (SPIFLASH_WRITEENABLE oc) = SPIFLASH_WRITEENABLE oc)
    by op_byte.
  assert (Hwe : (u8 (SPIFLASH_WRITEENABLE oc) =? SPIFLASH_WAKE oc) = false).
  { rewrite Ewe. apply Z.eqb_neq. op_neq. }
  apply bind_Some in H. destruct H as (u1 & d1 & d2 & Hpre & Hsend & ->).
  apply command_send_Some in Hsend.
  destruct Hsend as (g2 & r & -> & Hr & Hg2). rewrite Hcmd in Hg2.
  destruct Hg2 as [Hg2 _].
  destruct isWrite.
  - apply bind_Some in Hpre. destruct Hpre as (u2 & d3 & d4 & Hwren & Hun & ->).
    minv. apply command_send_Some in Hwren.
    destruct Hwren as (g1 & r1 & -> & Hr1 & Hg1). rewrite Hwe in Hg1.
    destruct Hg1 as [Hg1 _]. rewrite Ewe.
    exists (g1 ++ [[(SPIFLASH_WRITEENABLE oc, r1)]] ++ g2), r. repeat split.
    + rewrite !frames_app, frames_one, frame_opened, <- !app_assoc.
      reflexivity.
    + apply prelude_write; assumption.
    + lia.
    + lia.
  - minv. exists g2, r. repeat split; try lia.
    apply prelude_plain. exact Hg2.
Qed.

Lemma command_wake_Some fuel h u d :
  command oc chip dev fuel (SPIFLASH_WAKE oc) false h = Some (u, d) ->
  exists r, d = opened dev [(SPIFLASH_WAKE oc, r)] /\ 0 <= r < 256.
Proof.
  intros H. unfold command in H.
  assert (Ew : u8 (SPIFLASH_WAKE oc) = SPIFLASH_WAKE oc) by op_byte.
  apply bind_Some in H. destruct H as (u1 & d1 & d2 & Hpre & Hsend & ->).
  minv. apply command_send_Some in Hsend.
  destruct Hsend as (g & r & -> & Hr & Hg).
  rewrite Ew, Z.eqb_refl in Hg. subst g. rewrite Ew. exists r. auto.
Qed.

(** ** Runs of the member functions

    Each run that returns is a sequence of complete frames; the last frame
    is the command itself. *)

Lemma addr_bytes_mosi addr :
  [u8 (Z.shiftr addr 16); u8 (Z.shiftr addr 8); u8 addr] = addr_bytes addr.
Proof. unfold addr_bytes. rewrite !u8_land. reflexivity. Qed.

(** After [unfold] of a member function that starts with a gated
    [command]: inverts the run and refolds its events into frames. *)
Ltac gated_shape :=
  minv;
  match goal with
  | H : command _ _ _ _ ?cmd _ _ = Some _ |- _ =>
      let pre := fresh "pre" in
      let r := fresh "r" in
      let Hpre := fresh "Hpre" in
      let E := fresh "E" in
      assert (E : u8 cmd = cmd) by op_byte;
      apply command_Some in H;
      [ destruct H as (pre & r & -> & Hpre & ?); rewrite E in *
      | rewrite E; op_neq ];
      exists pre; eexists; split;
      [ reframe; rewrite opened_close; reflexivity | ];
      split; [exact Hpre | ]
  end.

Lemma sleep_Some fuel h u d :
  sleep oc chip dev fuel h = Some (u, d) ->
  exists pre c,
    d = frames dev (pre ++ [c]) /\ prelude oc false pre
    /\ mosi c = [SPIFLASH_SLEEP oc].
Proof. unfold sleep. intros H. gated_shape. reflexivity. Qed.

Lemma chipErase_Some fuel h u d :
  chipErase oc chip dev fuel h = Some (u, d) ->
  exists pre c,
    d = frames dev (pre ++ [c]) /\ prelude oc true pre
    /\ mosi c = [SPIFLASH_CHIPERASE oc].
Proof. unfold chipErase. intros H. gated_shape. reflexivity. Qed.

Lemma blockErase4K_Some fuel addr h u d :
  blockErase4K oc chip dev fuel addr h = Some (u, d) ->
  exists pre c,
    d = frames dev (pre ++ [c]) /\ prelude oc true pre
    /\ mosi c = SPIFLASH_BLOCKERASE_4K oc :: addr_bytes addr.
Proof.
  unfold blockErase4K. intros H. gated_shape.
  cbn [mosi map fst]. rewrite addr_bytes_mosi. reflexivity.
Qed.

Lemma blockErase32K_Some fuel addr h u d :
  blockErase32K oc chip dev fuel addr h = Some (u, d) ->
  exists pre c,
    d = frames dev (pre ++ [c]) /\ prelude oc true pre
    /\ mosi c = SPIFLASH_BLOCKERASE_32K oc :: addr_bytes addr.
Proof.
  unfold blockErase32K. intros H. gated_shape.
  cbn [mosi map fst]. rewrite addr_bytes_mosi. reflexivity.
Qed.

Lemma blockErase64K_Some fuel addr h u d :
  blockErase64K oc chip dev fuel addr h = Some (u, d) ->
  exists pre c,
    d = frames dev (pre ++ [c]) /\ prelude oc true pre
    /\ mosi c = SPIFLASH_BLOCKERASE_64K oc :: addr_bytes addr.
Proof.
  unfold blockErase64K. intros H. gated_shape.
  cbn [mosi map fst]. rewrite addr_bytes_mosi. reflexivity.
Qed.

Lemma writeByte_Some fuel addr byt h u d :
  writeByte oc chip dev fuel addr byt h = Some (u, d) ->
  exists pre c,
    d = frames dev (pre ++ [c]) /\ prelude oc true pre
    /\ mosi c = SPIFLASH_BYTEPAGEPROGRAM oc :: addr_bytes addr ++ [u8 byt].
Proof.
  unfold writeByte. intros H. gated_shape.
  cbn [mosi map fst]. rewrite <- addr_bytes_mosi. reflexivity.
Qed.

(** The global unprotect at the end of [initialize]. *)
Lemma unprotect_Some fuel h b d :
  (command oc chip dev fuel (SPIFLASH_STATUSWRITE oc) true ;;
   transfer chip 0 ;; unselect dev ;; ret true) h = Some (b, d) ->
  exists pre c,
    d = frames dev (pre ++ [c]) /\ prelude oc true pre
    /\ mosi c = [SPIFLASH_STATUSWRITE oc; 0] /\ b = true.
Proof. intros H. gated_shape. split; reflexivity. Qed.

Lemma readByte_Some fuel addr h result d :
  readByte oc chip dev fuel addr h = Some (result, d) ->
  exists pre c,
    d = frames dev (pre ++ [c]) /\ prelude oc false pre
    /\ mosi c = SPIFLASH_ARRAYREADLOWFREQ oc :: addr_bytes addr ++ [0]
    /\ skipn 4 (miso c) = [result].
Proof.
  unfold readByte. intros H. gated_shape.
  cbn [mosi miso map fst snd skipn]. rewrite <- addr_bytes_mosi.
  split; reflexivity.
Qed.

Lemma readBytes_Some fuel addr len h buf d :
  readBytes oc chip dev fuel addr len h = Some (buf, d) ->
  exists pre c,
    d = frames dev (pre ++ [c]) /\ prelude oc false pre
    /\ mosi c = SPIFLASH_ARRAYREAD oc :: addr_bytes addr ++ 0 :: map (fun _ => 0) buf
    /\ skipn 5 (miso c) = buf
    /\ length buf = Z.to_nat len
    /\ Forall (fun b => 0 <= b < 256) buf.
Proof.
  unfold readBytes. intros H. gated_shape.
  unfold mosi, miso. cbn [map fst snd skipn]. rewrite !map_map.
  cbn [fst snd]. rewrite <- addr_bytes_mosi, map_id. auto.
Qed.

Lemma readUniqueId_Some fuel h id d :
  readUniqueId oc chip dev fuel h = Some (id, d) ->
  exists pre c,
    d = frames dev (pre ++ [c]) /\ prelude oc false pre
    /\ mosi c = SPIFLASH_MACREAD oc :: repeat 0 12
    /\ skipn 5 (miso c) = id /\ length id = 8%nat.
Proof.
  unfold readUniqueId. intros H. gated_shape.
  unfold mosi, miso. cbn [map fst snd skipn]. rewrite !map_map.
  cbn [fst snd]. rewrite map_id.
  do 9 (destruct id as [|? id]; try discriminate). auto.
Qed.

Lemma wakeup_Some fuel h u d :
  wakeup oc chip dev fuel h = Some (u, d) ->
  exists r, d = frame dev [(SPIFLASH_WAKE oc, r)].
Proof.
  unfold wakeup. intros H. minv.
  match goal with
  | H : command _ _ _ _ _ _ _ = Some _ |- _ =>
      apply command_wake_Some in H; destruct H as (r & -> & _)
  end.
  exists r. rewrite frame_opened. reflexivity.
Qed.

Lemma readStatus_Some h status d :
  readStatus oc chip dev h = Some (status, d) ->
  exists r, d = frame dev [(SPIFLASH_STATUSREAD oc, r); (0, status)].
Proof.
  destruct (readStatus_run h) as (r & s' & E & _). rewrite E.
  intros H. injection H as <- <-. exists r. reflexivity.
Qed.

Lemma busy_Some h b d :
  busy oc chip dev h = Some (b, d) ->
  exists r status,
    d = frame dev [(SPIFLASH_STATUSREAD oc, r); (0, status)]
    /\ b = negb (Z.land status 1 =? 0).
Proof.
  destruct (busy_run h) as (r & s' & E & _). rewrite E.
  intros H. injection H as <- <-. exists r, s'. auto.
Qed.

Lemma readDeviceId_Some h id d :
  readDeviceId oc chip dev h = Some (id, d) ->
  exists r hi lo,
    d = frame dev [(SPIFLASH_IDREAD oc, r); (0, hi); (0, lo)]
    /\ id = Z.lor (u16 (Z.shiftl hi 8)) lo
    /\ 0 <= hi < 256 /\ 0 <= lo < 256.
Proof.
  unfold readDeviceId. intros H.
  assert (E : u8 (SPIFLASH_IDREAD oc) = SPIFLASH_IDREAD oc) by op_byte.
  minv. rewrite E.
  do 3 eexists. split; [|split; [reflexivity | split; eassumption]].
  rewrite frame_opened. reflexivity.
Qed.

Lemma map_fst_combine {A B} (xs : list A) (ys : list B) :
  length ys = length xs -> map fst (combine xs ys) = xs.
Proof.
  revert ys. induction xs as [|x xs IH]; intros [|y ys] Hlen; simpl in *;
    try reflexivity; try discriminate.
  f_equal. apply IH. lia.
Qed.

Lemma page_room addr : 1 <= 256 - addr mod 256 <= 256.
Proof. pose proof (Z.mod_pos_bound addr 256 ltac:(lia)). lia. Qed.

Lemma writeBytes_loop_Some fuel buf iter :
  forall addr offset len maxBytes h u d,
    0 <= offset -> 0 <= len -> offset + len < 65536 ->
    (0 < len -> maxBytes = 256 - addr mod 256) ->
    writeBytes_loop oc chip dev iter fuel buf addr offset len maxBytes h
    = Some (u, d) ->
    exists cs, d = frames dev cs /\ programmed oc buf addr offset len cs.
Proof.
  induction iter as [|iter IH]; intros addr offset len maxBytes h u d
    Hoff Hlen Hsum Hmax H.
  - cbn [writeBytes_loop] in H. destruct (0 <? len) eqn:Hpos.
    + discriminate.
    + apply Z.ltb_ge in Hpos. assert (len = 0) by lia. subst len.
      minv. exists []. split; [reflexivity | constructor].
  - cbn [writeBytes_loop] in H. destruct (0 <? len) eqn:Hpos.
    + apply Z.ltb_lt in Hpos. specialize (Hmax Hpos).
      pose proof (page_room addr) as Hroom.
      set (n := if len <=? maxBytes then len else maxBytes) in H.
      assert (Hn : n = Z.min len (256 - addr mod 256)).
      { subst n maxBytes. destruct (Z.leb_spec len (256 - addr mod 256)); lia. }
      assert (Hnpos : 1 <= n <= len) by lia.
      cbv zeta in H.
      apply bind_Some in H. destruct H as (u1 & d1 & d2 & Hcmd & H & ->).
      apply bind_Some in H. destruct H as (r1 & d3 & d4 & Ht1 & H & ->).
      apply bind_Some in H. destruct H as (r2 & d5 & d6 & Ht2 & H & ->).
      apply bind_Some in H. destruct H as (r3 & d7 & d8 & Ht3 & H & ->).
      apply bind_Some in H. destruct H as (u2 & d9 & d10 & Hfor & H & ->).
      apply bind_Some in H. destruct H as (u3 & d11 & d12 & Hun & Hrec & ->).
      assert (E : u8 (SPIFLASH_BYTEPAGEPROGRAM oc)
                  = SPIFLASH_BYTEPAGEPROGRAM oc) by op_byte.
      apply command_Some in Hcmd; [|rewrite E; op_neq].
      destruct Hcmd as (pre & r & -> & Hpre & Hr). rewrite E.
      minv.
      replace (u16 (offset + n)) with (offset + n) in Hrec
        by (unfold u16; rewrite Z.mod_small; lia).
      replace (u16 (len - n)) with (len - n) in Hrec
        by (unfold u16; rewrite Z.mod_small; lia).
      apply IH in Hrec; try lia.
      * destruct Hrec as (rest & -> & Hrest).
        eexists (pre ++ _ :: rest). split.
        -- reframe. rewrite opened_close_app. reflexivity.
        -- eapply programmed_chunk; eauto.
           unfold mosi. cbn [map fst].
           rewrite map_fst_combine by (rewrite length_map; lia).
           rewrite <- addr_bytes_mosi. reflexivity.
      * intros Hrem. assert (n = 256 - addr mod 256) by lia.
        rewrite u32_mod_256.
        replace (addr + n) with ((addr / 256 + 1) * 256)
          by (pose proof (Z.div_mod addr 256 ltac:(lia)); lia).
        rewrite Z.mod_mul by lia. lia.
    + apply Z.ltb_ge in Hpos. assert (len = 0) by lia. subst len.
      minv. exists []. split; [reflexivity | constructor].
Qed.

Lemma writeBytes_Some fuel addr buf len h u d :
  0 <= len < 65536 ->
  writeBytes oc chip dev fuel addr buf len h = Some (u, d) ->
  exists cs, d = frames dev cs /\ programmed oc buf addr 0 len cs.
Proof.
  intros Hlen H. unfold writeBytes in H.
  apply writeBytes_loop_Some in H; try lia; [exact H|].
  intros _. pose proof (page_room addr). unfold u16.
  apply Z.mod_small. lia.
Qed.

(** Whatever the arguments, a run of the loop is a sequence of frames. *)
Lemma writeBytes_loop_framed fuel buf iter :
  forall addr offset len maxBytes h u d,
    writeBytes_loop oc chip dev iter fuel buf addr offset len maxBytes h
    = Some (u, d) ->
    exists cs, d = frames dev cs.
Proof.
  induction iter as [|iter IH]; intros addr offset len maxBytes h u d H;
    cbn [writeBytes_loop] in H; destruct (0 <? len); try discriminate;
    try (minv; exists []; reflexivity).
  cbv zeta in H.
  apply bind_Some in H. destruct H as (u1 & d1 & d2 & Hcmd & H & ->).
  apply bind_Some in H. destruct H as (r1 & d3 & d4 & Ht1 & H & ->).
  apply bind_Some in H. destruct H as (r2 & d5 & d6 & Ht2 & H & ->).
  apply bind_Some in H. destruct H as (r3 & d7 & d8 & Ht3 & H & ->).
  apply bind_Some in H. destruct H as (u2 & d9 & d10 & Hfor & H & ->).
  apply bind_Some in H. destruct H as (u3 & d11 & d12 & Hun & Hrec & ->).
  assert (E : u8 (SPIFLASH_BYTEPAGEPROGRAM oc)
              = SPIFLASH_BYTEPAGEPROGRAM oc) by op_byte.
  apply command_Some in Hcmd; [|rewrite E; op_neq].
  destruct Hcmd as (pre & r & -> & Hpre & Hr).
  minv. apply IH in Hrec. destruct Hrec as (rest & ->).
  eexists (pre ++ _ :: rest). reframe. rewrite opened_close_app.
  reflexivity.
Qed.

Lemma readByte_byte fuel addr h result d :
  readByte oc chip dev fuel addr h = Some (result, d) ->
  0 <= result < 256.
Proof. unfold readByte. intros H. minv. assumption. Qed.

Lemma readUniqueId_bytes fuel h id d :
  readUniqueId oc chip dev fuel h = Some (id, d) ->
  Forall (fun b => 0 <= b < 256) id.
Proof. unfold readUniqueId. intros H. minv. assumption. Qed.

End Runs.

(** ** The paged write planner *)

Lemma addr_of_addr_bytes addr :
  addr_of_bytes (Z.land (Z.shiftr addr 16) 255) (Z.land (Z.shiftr addr 8) 255)
                (Z.land addr 255)
  = addr mod 16777216.
Proof.
  unfold addr_of_bytes. rewrite <- !u8_land. unfold u8.
  rewrite !Z.shiftr_div_pow2 by lia.
  change (2 ^ 16) with (256 * 256). change (2 ^ 8) with 256.
  rewrite <- Z.div_div by lia.
  pose proof (Z.div_mod addr 256 ltac:(lia)) as H0.
  pose proof (Z.div_mod (addr / 256) 256 ltac:(lia)) as H1.
  pose proof (Z.div_mod (addr / 256 / 256) 256 ltac:(lia)) as H2.
  pose proof (Z.mod_pos_bound addr 256 ltac:(lia)).
  pose proof (Z.mod_pos_bound (addr / 256) 256 ltac:(lia)).
  pose proof (Z.mod_pos_bound (addr / 256 / 256) 256 ltac:(lia)).
  apply Z.mod_unique with (q := addr / 256 / 256 / 256); lia.
Qed.

Lemma addr_bytes_bits addr i :
  0 <= i < 8 ->
  match addr_bytes addr with
  | [a2; a1; a0] =>
      Z.testbit a2 i = Z.testbit addr (i + 16)
      /\ Z.testbit a1 i = Z.testbit addr (i + 8)
      /\ Z.testbit a0 i = Z.testbit addr i
  | _ => False
  end.
Proof.
  intros Hi. unfold addr_bytes. change 255 with (Z.ones 8).
  rewrite !Z.land_spec, !Z.shiftr_spec, Z.ones_spec_low by lia.
  rewrite !andb_true_r. auto.
Qed.

Lemma length_buf_slice buf offset n :
  length (buf_slice buf offset n) = Z.to_nat n.
Proof. unfold buf_slice. rewrite length_map, length_seq. reflexivity. Qed.

Lemma map_seq_from {A} len : forall (f : nat -> A) start,
  map f (seq start len) = map (fun i => f (start + i)%nat) (seq 0 len).
Proof.
  induction len as [|len IH]; intros f start; simpl.
  - reflexivity.
  - f_equal.
    + f_equal. lia.
    + rewrite (IH f (S start)), (IH (fun i => f (start + i)%nat) 1%nat).
      apply map_ext. intros i. f_equal. lia.
Qed.

Lemma buf_slice_add buf offset n m :
  0 <= n -> 0 <= m ->
  buf_slice buf offset (n + m)
  = buf_slice buf offset n ++ buf_slice buf (offset + n) m.
Proof.
  intros Hn Hm. unfold buf_slice.
  rewrite Z2Nat.inj_add, seq_app, map_app by lia. f_equal.
  rewrite map_seq_from. apply map_ext. intros i. do 2 f_equal. lia.
Qed.

Lemma map_nth_seq (buf : list Z) : forall k,
  (k <= length buf)%nat ->
  map (fun i => nth i buf 0) (seq 0 k) = firstn k buf.
Proof.
  induction buf as [|b buf IH]; intros k Hk.
  - simpl in Hk. assert (k = 0%nat) by lia. subst k. reflexivity.
  - destruct k as [|k]; [reflexivity|].
    cbn [seq map firstn nth]. f_equal.
    rewrite map_seq_from. cbn [Nat.add nth]. apply IH. simpl in Hk. lia.
Qed.

Lemma buf_slice_firstn buf n :
  (Z.to_nat n <= length buf)%nat ->
  buf_slice buf 0 n = firstn (Z.to_nat n) buf.
Proof.
  intros Hlen. unfold buf_slice. rewrite <- map_nth_seq by exact Hlen.
  apply map_ext. intros i. f_equal. lia.
Qed.

Lemma Forall_firstn_of {A} (P : A -> Prop) l : forall k,
  Forall P l -> Forall P (firstn k l).
Proof.
  induction l as [|x l IH]; intros [|k] H; simpl; try constructor.
  - inversion H; assumption.
  - apply IH. inversion H; assumption.
Qed.

Lemma map_u8_bytes l :
  Forall (fun b => 0 <= b < 256) l -> map u8 l = l.
Proof.
  induction 1 as [|b l Hb _ IH]; simpl; [reflexivity|].
  rewrite u8_small by exact Hb. f_equal. exact IH.
Qed.

Lemma keep_some_app {A} (l1 l2 : list (option A)) :
  keep_some (l1 ++ l2) = keep_some l1 ++ keep_some l2.
Proof.
  induction l1 as [|[a|] l1 IH]; simpl; rewrite ?IH; reflexivity.
Qed.

Lemma busy_wait_no_chunk oc g :
  busy_wait oc g -> keep_some (map (chunk_of oc) g) = [].
Proof.
  induction 1 as [c status [r ->] _ | c status cs [r ->] _ _ IH].
  - reflexivity.
  - simpl. exact IH.
Qed.

Lemma prelude_no_chunk oc w pre :
  prelude oc w pre -> keep_some (map (chunk_of oc) pre) = [].
Proof.
  destruct 1 as [g Hg | g1 r g2 Hg1 Hg2].
  - apply busy_wait_no_chunk. exact Hg.
  - rewrite !map_app, !keep_some_app.
    rewrite (busy_wait_no_chunk Hg1). simpl.
    apply busy_wait_no_chunk. exact Hg2.
Qed.

Lemma chunk_of_program oc c addr payload :
  mosi c = SPIFLASH_BYTEPAGEPROGRAM oc :: addr_bytes addr ++ payload ->
  chunk_of oc c = Some (addr mod 16777216, payload).
Proof.
  intros H. unfold chunk_of. rewrite H. unfold addr_bytes. cbn [app].
  rewrite Z.eqb_refl, addr_of_addr_bytes. reflexivity.
Qed.

Lemma programmed_planned oc buf addr offset len cs :
  programmed oc buf addr offset len cs ->
  planned buf addr offset len (keep_some (map (chunk_of oc) cs)).
Proof.
  induction 1 as [|addr offset len n pre c rest Hlen Hn Hpre Hc _ IH].
  - constructor.
  - rewrite map_app, keep_some_app, (prelude_no_chunk Hpre). cbn [app map].
    rewrite (@chunk_of_program oc c _ _ Hc). cbn [keep_some].
    econstructor; eassumption.
Qed.

Lemma planned_len_nonneg buf addr offset len ks :
  planned buf addr offset len ks -> 0 <= len.
Proof. destruct 1; lia. Qed.

Lemma chunk_len_slice a buf offset n :
  0 <= n -> chunk_len (a, map u8 (buf_slice buf offset n)) = n.
Proof.
  intros Hn. unfold chunk_len. cbn [snd].
  rewrite length_map, length_buf_slice. lia.
Qed.

Lemma in_one_page_room addr n :
  1 <= n <= 256 - addr mod 256 ->
  forall payload, Z.of_nat (length payload) = n ->
  in_one_page (addr mod 16777216, payload).
Proof.
  intros Hn payload Hlen. unfold in_one_page, chunk_start, chunk_len.
  cbn [fst snd]. rewrite Hlen.
  set (s := addr mod 16777216).
  assert (Hs : s mod 256 = addr mod 256).
  { subst s. apply Z.mod_mod_divide. exists 65536. reflexivity. }
  pose proof (Z.div_mod s 256 ltac:(lia)) as Hdm.
  pose proof (Z.mod_pos_bound s 256 ltac:(lia)) as Hb.
  apply Z.div_unique with (r := s mod 256 + n - 1); lia.
Qed.

Lemma planned_in_one_page buf addr offset len ks :
  planned buf addr offset len ks -> Forall in_one_page ks.
Proof.
  induction 1 as [|addr offset len n ks Hlen Hn _ IH].
  - constructor.
  - constructor; [|exact IH].
    pose proof (page_room addr).
    apply in_one_page_room with (n := n); [lia|].
    rewrite length_map, length_buf_slice. lia.
Qed.

Lemma consecutive_from_congr ks : forall a b,
  a mod 16777216 = b mod 16777216 ->
  consecutive_from a ks -> consecutive_from b ks.
Proof.
  induction ks as [|k ks IH]; intros a b Hab H; simpl in *.
  - exact I.
  - destruct H as [Hs Hrest]. split; [congruence|].
    apply (IH (a + chunk_len k)); [|exact Hrest].
    rewrite (Z.add_mod a), (Z.add_mod b), Hab by lia. reflexivity.
Qed.

Lemma planned_consecutive buf addr offset len ks :
  planned buf addr offset len ks -> consecutive_from addr ks.
Proof.
  induction 1 as [|addr offset len n ks Hlen Hn _ IH]; simpl.
  - exact I.
  - split; [reflexivity|].
    pose proof (page_room addr).
    rewrite chunk_len_slice by lia.
    apply (consecutive_from_congr _ (u32 (addr + n))); [|exact IH].
    apply u32_mod_24.
Qed.

Lemma planned_payloads buf addr offset len ks :
  planned buf addr offset len ks ->
  payloads ks = map u8 (buf_slice buf offset len).
Proof.
  induction 1 as [|addr offset len n ks Hlen Hn Hrest IH].
  - reflexivity.
  - pose proof (page_room addr). pose proof (planned_len_nonneg Hrest).
    unfold payloads in *. cbn [flat_map snd]. rewrite IH, <- map_app.
    rewrite <- buf_slice_add by lia. do 2 f_equal. lia.
Qed.

Lemma planned_total_len buf addr offset len ks :
  planned buf addr offset len ks -> total_len ks = len.
Proof.
  induction 1 as [|addr offset len n ks Hlen Hn _ IH].
  - reflexivity.
  - pose proof (page_room addr). unfold total_len in *.
    cbn [fold_right]. rewrite IH, chunk_len_slice by lia. lia.
Qed.

Lemma next_page_aligned addr len n :
  n = Z.min len (256 - addr mod 256) ->
  0 < len - n -> u32 (addr + n) mod 256 = 0.
Proof.
  intros Hn Hrem. pose proof (page_room addr).
  assert (n = 256 - addr mod 256) by lia.
  rewrite u32_mod_256.
  replace (addr + n) with ((addr / 256 + 1) * 256)
    by (pose proof (Z.div_mod addr 256 ltac:(lia)); lia).
  apply Z.mod_mul. lia.
Qed.

Lemma planned_aligned buf addr offset len ks :
  planned buf addr offset len ks ->
  (0 < len -> addr mod 256 = 0) -> Forall page_aligned ks.
Proof.
  induction 1 as [|addr offset len n ks Hlen Hn _ IH]; intros Hal.
  - constructor.
  - specialize (Hal Hlen). pose proof (page_room addr). constructor.
    + unfold page_aligned, chunk_start. cbn [fst].
      rewrite chunk_len_slice by lia. split; [|lia].
      rewrite <- Hal. apply Z.mod_mod_divide. exists 65536. reflexivity.
    + apply IH. intros Hrem. eapply next_page_aligned; eassumption.
Qed.

Lemma planned_first buf addr offset len ks :
  planned buf addr offset len ks ->
  match ks with
  | [] => len = 0
  | k :: ks' =>
      chunk_start k = addr mod 16777216
      /\ chunk_len k = Z.min len (256 - addr mod 256)
      /\ Forall page_aligned ks'
  end.
Proof.
  destruct 1 as [|addr offset len n ks Hlen Hn Hrest].
  - reflexivity.
  - pose proof (page_room addr). rewrite chunk_len_slice by lia.
    repeat split; [exact Hn|].
    eapply planned_aligned; [exact Hrest|].
    intros Hrem. eapply next_page_aligned; eassumption.
Qed.

(** ** Returning *)

Lemma total_ret {A} (a : A) : total (ret a).
Proof. intros h. discriminate. Qed.

Lemma total_emit e : total (emit e).
Proof. intros h. discriminate. Qed.

Lemma bind_returns {A B} (m : M A) (f : A -> M B) h :
  m h <> None -> (forall a, total (f a)) -> bind m f h <> None.
Proof.
  intros Hm Hf. unfold bind. destruct (m h) as [[a d1]|]; [|congruence].
  specialize (Hf a (h ++ d1)). destruct (f a (h ++ d1)) as [[b d2]|].
  - discriminate.
  - congruence.
Qed.

Lemma total_bind {A B} (m : M A) (f : A -> M B) :
  total m -> (forall a, total (f a)) -> total (bind m f).
Proof. intros Hm Hf h. apply bind_returns; [apply Hm | exact Hf]. Qed.

Lemma total_repeatM {A} n (m : M A) : total m -> total (repeatM n m).
Proof.
  intros Hm. induction n as [|n IH]; simpl.
  - apply total_ret.
  - apply total_bind; [exact Hm | intros x].
    apply total_bind; [exact IH | intros xs]. apply total_ret.
Qed.

Lemma total_forM_ {A B} xs (f : A -> M B) :
  (forall x, total (f x)) -> total (forM_ xs f).
Proof.
  intros Hf. induction xs as [|x xs IH]; simpl.
  - apply total_ret.
  - apply total_bind; [apply Hf | intros _; exact IH].
Qed.

Section Returning.

Variable oc : Opcodes.
Variable chip : transcript -> Z -> Z.
Variable dev : SPIFlash.
Hypothesis Hoc : opcodes_ok oc = true.

Lemma total_transfer x : total (transfer chip x).
Proof. intros h. discriminate. Qed.

Lemma total_select : total (select dev).
Proof. intros h. discriminate. Qed.

Lemma total_unselect : total (unselect dev).
Proof. intros h. discriminate. Qed.

Lemma total_readStatus : total (readStatus oc chip dev).
Proof.
  intros h. destruct (@readStatus_run oc chip dev Hoc h) as (r & s & E & _).
  rewrite E. discriminate.
Qed.

Lemma total_busy : total (busy oc chip dev).
Proof.
  intros h. destruct (@busy_run oc chip dev Hoc h) as (r & s & E & _).
  rewrite E. discriminate.
Qed.

Lemma total_readDeviceId : total (readDeviceId oc chip dev).
Proof. intros h. discriminate. Qed.

(** Solves [total m] and [m h <> None] for straight-line code. *)
Ltac totality :=
  repeat first
    [ apply total_ret | apply total_emit | apply total_transfer
    | apply total_select | apply total_unselect | apply total_readStatus
    | apply total_busy | apply total_readDeviceId
    | apply total_repeatM | apply total_forM_
    | apply total_bind | apply bind_returns
    | assumption | intro ].

Lemma command_send_returns fuel cmd h :
  u8 cmd = SPIFLASH_WAKE oc \/ gate_opens oc chip dev fuel h ->
  command_send oc chip dev fuel cmd h <> None.
Proof.
  intros Hg. unfold command_send. apply bind_returns.
  - destruct (u8 cmd =? SPIFLASH_WAKE oc) eqn:E; simpl.
    + discriminate.
    + destruct Hg as [Hw | Hg]; [|exact Hg].
      apply Z.eqb_neq in E. contradiction.
  - totality.
Qed.

Lemma command_plain_returns fuel cmd h :
  u8 cmd = SPIFLASH_WAKE oc \/ gate_opens oc chip dev fuel h ->
  command oc chip dev fuel cmd false h <> None.
Proof.
  intros Hg. apply (command_send_returns cmd) in Hg.
  unfold command, bind at 1. cbn [ret]. rewrite app_nil_r.
  destruct (command_send oc chip dev fuel cmd h) as [[u d]|]; congruence.
Qed.

Lemma total_wakeup fuel : total (wakeup oc chip dev fuel).
Proof.
  intros h. unfold wakeup. apply bind_returns.
  - apply command_plain_returns. left. op_byte.
  - intros _. apply total_unselect.
Qed.

Lemma total_found_loop todo : forall i deviceID,
  total (found_loop oc chip dev todo i deviceID).
Proof.
  induction todo as [|todo IH]; intros i deviceID; simpl.
  - apply total_ret.
  - apply total_bind; [apply total_readDeviceId | intros idNow].
    destruct ((idNow =? 0) || (idNow =? 65535)
              || (0 <? i) && negb (idNow =? deviceID));
      [apply total_ret | apply IH].
Qed.

(** [found] returns whatever the chip answers: it never waits. *)
Lemma total_found fuel : total (found oc chip dev fuel).
Proof.
  unfold found. apply total_bind; [apply total_wakeup | intros _].
  apply total_bind; [apply total_found_loop | intros deviceID].
  destruct (deviceID =? 0); apply total_ret.
Qed.

Section Responsive.

Variable fuel : nat.
Hypothesis Hresp : responsive oc chip dev fuel.

Lemma total_command_send cmd : total (command_send oc chip dev fuel cmd).
Proof. intros h. apply command_send_returns. right. apply Hresp. Qed.

Lemma total_command cmd isWrite :
  total (command oc chip dev fuel cmd isWrite).
Proof.
  unfold command. apply total_bind.
  - destruct isWrite; [|apply total_ret].
    apply total_bind; [apply total_command_send | intros _].
    apply total_unselect.
  - intros _. apply total_command_send.
Qed.

Lemma total_writeBytes_loop buf iter :
  forall addr offset len maxBytes,
    1 <= maxBytes -> (Z.to_nat len <= iter)%nat ->
    total (writeBytes_loop oc chip dev iter fuel buf addr offset len maxBytes).
Proof.
  induction iter as [|iter IH]; intros addr offset len maxBytes Hmax Hiter;
    cbn [writeBytes_loop]; destruct (0 <? len) eqn:Hpos;
    try apply total_ret.
  - apply Z.ltb_lt in Hpos. lia.
  - apply Z.ltb_lt in Hpos. cbv zeta.
    set (n := if len <=? maxBytes then len else maxBytes).
    assert (Hn : 1 <= n <= len).
    { subst n. destruct (Z.leb_spec len maxBytes); lia. }
    apply total_bind; [apply total_command | intros _].
    do 3 (apply total_bind; [apply total_transfer | intros _]).
    apply total_bind; [apply total_forM_; intros x; apply total_transfer
                      | intros _].
    apply total_bind; [apply total_unselect | intros _].
    apply IH; [lia|].
    assert (u16 (len - n) <= len - n).
    { unfold u16. apply Z.mod_le; lia. }
    lia.
Qed.

Lemma total_writeBytes addr buf len :
  total (writeBytes oc chip dev fuel addr buf len).
Proof.
  unfold writeBytes. apply total_writeBytes_loop; [|lia].
  pose proof (page_room addr). unfold u16. rewrite Z.mod_small; lia.
Qed.

Lemma total_initialize : total (initialize oc chip dev fuel).
Proof.
  unfold initialize.
  do 2 (apply total_bind; [apply total_emit | intros _]).
  apply total_bind; [apply total_unselect | intros _].
  apply total_bind; [apply total_wakeup | intros _].
  apply total_bind.
  - destruct (_jedecID dev =? 0); [apply total_ret|].
    apply total_bind; [apply total_readDeviceId | intros id].
    apply total_ret.
  - intros [|]; [|apply total_ret].
    apply total_bind; [apply total_command | intros _].
    apply total_bind; [apply total_transfer | intros _].
    apply total_bind; [apply total_unselect | intros _].
    apply total_ret.
Qed.

(** On a responsive chip every public operation returns. *)
Lemma total_perform c : total (perform oc chip dev fuel c).
Proof.
  destruct c; cbn [perform];
    try (apply total_bind; [|intros _; apply total_ret]);
    try apply total_initialize; try apply total_found;
    try apply total_writeBytes; try apply total_wakeup;
    try apply total_readDeviceId; try apply total_readStatus;
    try apply total_busy; try apply total_emit;
    unfold readUniqueId, readByte, readBytes, writeByte,
      chipErase, blockErase4K, blockErase32K, blockErase64K,
      regionIsEmpty, readBytes, sleep.
  all: repeat first
    [ apply total_ret | apply total_transfer | apply total_unselect
    | apply total_command | apply total_repeatM
    | apply total_bind | intro ].
Qed.

End Responsive.

End Returning.

(** ** Device lifecycle *)

Lemma jedec_value hi lo :
  0 <= hi < 256 -> 0 <= lo < 256 ->
  Z.lor (u16 (Z.shiftl hi 8)) lo = hi * 256 + lo.
Proof.
  intros Hhi Hlo. unfold u16. rewrite Z.shiftl_mul_pow2 by lia.
  change (2 ^ 8) with 256. rewrite Z.mod_small by lia.
  rewrite <- Z.lxor_lor, <- Z.add_nocarry_lxor; [reflexivity| |].
  all: apply Z.bits_inj'; intros n Hn; rewrite Z.land_spec, Z.bits_0;
    destruct (Z.lt_ge_cases n 8) as [Hlt | Hge].
  all: try (replace (hi * 256) with (Z.shiftl hi 8)
              by (rewrite Z.shiftl_mul_pow2 by lia; reflexivity);
            rewrite Z.shiftl_spec_low by lia; reflexivity).
  all: rewrite (Z.bits_above_log2 lo n); [apply andb_false_r | lia |].
  all: destruct (Z.eq_dec lo 0) as [-> | Hnz]; [simpl; lia|];
    apply Z.log2_lt_pow2; [lia|];
    apply Z.lt_le_trans with (2 ^ 8); [simpl; lia|];
    apply Z.pow_le_mono_r; lia.
Qed.

Section Lifecycle.

Variable oc : Opcodes.
Variable chip : transcript -> Z -> Z.
Variable dev : SPIFlash.
Hypothesis Hoc : opcodes_ok oc = true.

Lemma readDeviceId_cycle h id d :
  readDeviceId oc chip dev h = Some (id, d) ->
  exists c, d = frames dev [c] /\ id_cycle oc id c.
Proof.
  intros H. apply (@readDeviceId_Some oc chip dev Hoc) in H.
  destruct H as (r & hi & lo & -> & -> & Hhi & Hlo).
  eexists. split; [symmetry; apply frames_one|].
  exists r, hi, lo. rewrite jedec_value by assumption. auto.
Qed.

Lemma id_of_cycles ids cs :
  Forall2 (id_cycle oc) ids cs -> keep_some (map (id_of oc) cs) = ids.
Proof.
  induction 1 as [|id c ids cs (r & hi & lo & -> & _ & _ & ->) _ IH].
  - reflexivity.
  - cbn [map id_of]. rewrite Z.eqb_refl. cbn [keep_some]. rewrite IH.
    reflexivity.
Qed.

Lemma found_loop_step todo i deviceID :
  found_loop oc chip dev (S todo) i deviceID
  = (idNow <- readDeviceId oc chip dev ;;
     if (idNow =? 0) || (idNow =? 65535)
        || ((0 <? i) && negb (idNow =? deviceID))
     then ret 0
     else found_loop oc chip dev todo (u8 (i + 1)) idNow).
Proof. reflexivity. Qed.

(** The loop of [found] once a first identifier [prev] has been read. *)
Lemma found_loop_Some todo : forall i prev h r d,
  0 < i -> i + Z.of_nat todo <= 255 ->
  found_loop oc chip dev todo i prev h = Some (r, d) ->
  exists ids cs,
    d = frames dev cs /\ Forall2 (id_cycle oc) ids cs
    /\ (length ids <= todo)%nat
    /\ ((length ids = todo /\ Forall (valid_id prev) ids /\ r = prev)
        \/ (exists good bad,
              ids = good ++ [bad] /\ Forall (valid_id prev) good
              /\ ~ valid_id prev bad /\ r = 0)).
Proof.
  induction todo as [|todo IH]; intros i prev h r d Hi Hbound H;
    cbn [found_loop] in H.
  - injection H as <- <-. exists [], []. repeat split; auto.
  - apply bind_Some in H. destruct H as (idNow & d1 & d2 & Hid & H & ->).
    apply readDeviceId_cycle in Hid. destruct Hid as (c & -> & Hc).
    assert (Hipos : (0 <? i) = true) by (apply Z.ltb_lt; exact Hi).
    rewrite Hipos in H. cbn [andb] in H.
    destruct (idNow =? 0) eqn:E0; [|destruct (idNow =? 65535) eqn:E1;
      [|destruct (idNow =? prev) eqn:Ep]]; cbn [orb negb] in H.
    + injection H as <- <-. apply Z.eqb_eq in E0.
      exists [idNow], [c]. rewrite app_nil_r. repeat split; auto.
      * simpl. lia.
      * right. exists [], idNow. repeat split; auto.
        unfold valid_id. tauto.
    + injection H as <- <-. apply Z.eqb_eq in E1.
      exists [idNow], [c]. rewrite app_nil_r. repeat split; auto.
      * simpl. lia.
      * right. exists [], idNow. repeat split; auto.
        unfold valid_id. tauto.
    + apply Z.eqb_eq in Ep. apply Z.eqb_neq in E0, E1. subst idNow.
      apply IH in H.
      2:{ unfold u8. rewrite Z.mod_small; lia. }
      2:{ unfold u8. rewrite Z.mod_small; lia. }
      destruct H as (ids & cs & -> & Hcs & Hlen & Hres).
      exists (prev :: ids), (c :: cs). repeat split.
      * change (c :: cs) with ([c] ++ cs). symmetry. apply frames_app.
      * constructor; assumption.
      * simpl. lia.
      * assert (Hv : valid_id prev prev) by (unfold valid_id; auto).
        destruct Hres as [(Hl & Hall & ->) | (good & bad & -> & Hg & Hb & ->)].
        -- left. repeat split; [simpl; lia | constructor; assumption].
        -- right. exists (prev :: good), bad. repeat split; auto.
    + injection H as <- <-. apply Z.eqb_neq in Ep.
      exists [idNow], [c]. rewrite app_nil_r. repeat split; auto.
      * simpl. lia.
      * right. exists [], idNow. repeat split; auto.
        unfold valid_id. tauto.
Qed.

Lemma found_Some fuel h b d :
  found oc chip dev fuel h = Some (b, d) ->
  exists rw ids cs,
    d = frames dev ([(SPIFLASH_WAKE oc, rw)] :: cs)
    /\ Forall2 (id_cycle oc) ids cs
    /\ (1 <= length ids <= 10)%nat
    /\ (if b then length ids = 10%nat /\ Forall (valid_id (hd 0 ids)) ids
        else exists good bad,
               ids = good ++ [bad] /\ Forall (valid_id (hd 0 ids)) good
               /\ ~ valid_id (hd 0 ids) bad).
Proof.
  unfold found. intros H.
  apply bind_Some in H. destruct H as (u & d1 & d2 & Hw & H & ->).
  apply (@wakeup_Some oc chip dev Hoc) in Hw. destruct Hw as (rw & ->).
  apply bind_Some in H. destruct H as (deviceID & d3 & d4 & Hloop & H & ->).
  assert (Hb : b = negb (deviceID =? 0) /\ d4 = []).
  { destruct (deviceID =? 0); injection H as <- <-; auto. }
  destruct Hb as [-> ->]. clear H. rewrite app_nil_r.
  rewrite found_loop_step in Hloop.
  apply bind_Some in Hloop.
  destruct Hloop as (idNow & d1 & d2 & Hid & H & ->).
  apply readDeviceId_cycle in Hid. destruct Hid as (c & -> & Hc).
  change (0 <? 0) with false in H. cbn [andb] in H. rewrite orb_false_r in H.
  exists rw.
  destruct (idNow =? 0) eqn:E0; [|destruct (idNow =? 65535) eqn:E1];
    cbn [orb] in H.
  - injection H as <- <-. apply Z.eqb_eq in E0.
    exists [idNow], [c]. rewrite app_nil_r. repeat split; auto.
    + simpl. lia.
    + simpl. exists [], idNow. repeat split; auto. unfold valid_id. tauto.
  - injection H as <- <-. apply Z.eqb_eq in E1.
    exists [idNow], [c]. rewrite app_nil_r. repeat split; auto.
    + simpl. lia.
    + simpl. exists [], idNow. repeat split; auto. unfold valid_id. tauto.
  - apply Z.eqb_neq in E0, E1.
    change (u8 (0 + 1)) with 1 in H.
    apply found_loop_Some in H; [|lia|simpl; lia].
    destruct H as (ids & cs & -> & Hcs & Hlen & Hres).
    exists (idNow :: ids), (c :: cs).
    assert (Hv : valid_id idNow idNow) by (unfold valid_id; auto).
    split; [|split; [constructor; assumption | split; [simpl; lia|]]].
    + change ([(SPIFLASH_WAKE oc, rw)] :: c :: cs)
        with ([[(SPIFLASH_WAKE oc, rw)]] ++ [c] ++ cs).
      rewrite !frames_app, frames_one. reflexivity.
    + cbn [hd].
      destruct Hres as [(Hl & Hall & ->) | (good & bad & -> & Hg & Hb & ->)].
      * apply Z.eqb_neq in E0. rewrite E0. cbn [negb].
        split; [simpl; lia | constructor; assumption].
      * cbn [Z.eqb negb]. exists (idNow :: good), bad. repeat split; auto.
Qed.

Lemma initialize_Some fuel h b d :
  initialize oc chip dev fuel h = Some (b, d) ->
  exists rw ids tail,
    d = [PinModeOutput (_slaveSelectPin dev); SpiBegin] ++ closing dev
          ++ frames dev ([(SPIFLASH_WAKE oc, rw)] :: ids ++ tail)
    /\ (if _jedecID dev =? 0 then ids = [] /\ b = true
        else exists id c,
               ids = [c] /\ id_cycle oc id c /\ b = (id =? _jedecID dev))
    /\ (if b
        then exists pre c,
               tail = pre ++ [c] /\ prelude oc true pre
               /\ mosi c = [SPIFLASH_STATUSWRITE oc; 0]
        else tail = []).
Proof.
  unfold initialize. intros H.
  apply bind_Some in H. destruct H as (u1 & d1 & d2 & H1 & H & ->).
  apply bind_Some in H. destruct H as (u2 & d3 & d4 & H2 & H & ->).
  apply bind_Some in H. destruct H as (u3 & d5 & d6 & H3 & H & ->).
  apply bind_Some in H. destruct H as (u4 & d7 & d8 & Hw & H & ->).
  apply bind_Some in H. destruct H as (matches & d9 & d10 & Hid & H & ->).
  injection H1 as _ <-. injection H2 as _ <-.
  rewrite (unselect_run dev) in H3. injection H3 as _ <-.
  apply (@wakeup_Some oc chip dev Hoc) in Hw. destruct Hw as (rw & ->).
  exists rw.
  assert (Hids : exists ids,
    d9 = frames dev ids
    /\ (if _jedecID dev =? 0 then ids = [] /\ matches = true
        else exists id c,
               ids = [c] /\ id_cycle oc id c
               /\ matches = (id =? _jedecID dev))).
  { destruct (_jedecID dev =? 0).
    - injection Hid as <- <-. exists []. auto.
    - apply bind_Some in Hid. destruct Hid as (id & da & db & Hrd & Hret & ->).
      injection Hret as <- <-. apply readDeviceId_cycle in Hrd.
      destruct Hrd as (c & -> & Hc). exists [c]. rewrite app_nil_r.
      split; [reflexivity|]. exists id, c. auto. }
  destruct Hids as (ids & -> & Hids). exists ids.
  destruct matches.
  - apply (@unprotect_Some oc chip dev Hoc) in H.
    destruct H as (pre & c & -> & Hpre & Hc & ->).
    exists (pre ++ [c]). split; [|split; [exact Hids | eauto]].
    change ([(SPIFLASH_WAKE oc, rw)] :: ids ++ pre ++ [c])
      with ([[(SPIFLASH_WAKE oc, rw)]] ++ ids ++ pre ++ [c]).
    rewrite !frames_app, frames_one, <- ?app_assoc. reflexivity.
  - injection H as <- <-. exists []. split; [|split; [exact Hids | reflexivity]].
    rewrite !app_nil_r.
    change ([(SPIFLASH_WAKE oc, rw)] :: ids)
      with ([[(SPIFLASH_WAKE oc, rw)]] ++ ids).
    rewrite !frames_app, frames_one. reflexivity.
Qed.

End Lifecycle.

(** ** The memory model *)

Lemma store_bytes_congr bytes : forall mem a b,
  a mod 16777216 = b mod 16777216 ->
  store_bytes mem a bytes = store_bytes mem b bytes.
Proof.
  induction bytes as [|x bytes IH]; intros mem a b Hab; simpl.
  - reflexivity.
  - rewrite Hab. apply IH.
    rewrite (Z.add_mod a), (Z.add_mod b), Hab by lia. reflexivity.
Qed.

Lemma store_bytes_app xs : forall mem a ys,
  store_bytes mem a (xs ++ ys)
  = store_bytes (store_bytes mem a xs) (a + Z.of_nat (length xs)) ys.
Proof.
  induction xs as [|x xs IH]; intros mem a ys; simpl.
  - rewrite Z.add_0_r. reflexivity.
  - rewrite IH. f_equal. lia.
Qed.

Lemma program_chunks_flat ks : forall mem a,
  consecutive_from a ks ->
  program_chunks mem ks = store_bytes mem a (payloads ks).
Proof.
  induction ks as [|k ks IH]; intros mem a H; simpl in *.
  - reflexivity.
  - destruct H as [Hs Hrest]. unfold program_chunks in *. cbn [fold_left].
    rewrite (IH _ _ Hrest). unfold payloads. cbn [flat_map].
    rewrite store_bytes_app. unfold program_chunk, chunk_len.
    rewrite (store_bytes_congr (snd k) mem (chunk_start k) a).
    + reflexivity.
    + rewrite Hs. apply Z.mod_mod. lia.
Qed.

(** Storing does not touch an address outside the stored range. *)
Lemma store_bytes_other bytes : forall mem a x,
  (forall j, 0 <= j < Z.of_nat (length bytes) ->
             x <> (a + j) mod 16777216) ->
  store_bytes mem a bytes x = mem x.
Proof.
  induction bytes as [|b bytes IH]; intros mem a x Hx; simpl.
  - reflexivity.
  - rewrite IH.
    + destruct (Z.eqb_spec x (a mod 16777216)) as [E|_]; [|reflexivity].
      exfalso. apply (Hx 0); [simpl length; lia|].
      rewrite Z.add_0_r. exact E.
    + intros j Hj. replace (a + 1 + j) with (a + (j + 1)) by lia.
      apply Hx. simpl length. lia.
Qed.

Lemma mod_add_distinct a j :
  0 < j < 16777216 -> a mod 16777216 <> (a + j) mod 16777216.
Proof.
  intros Hj E.
  assert (H : (a + j - a) mod 16777216 = 0).
  { rewrite Zminus_mod, <- E, Z.sub_diag. reflexivity. }
  replace (a + j - a) with j in H by lia.
  rewrite Z.mod_small in H; lia.
Qed.

Lemma store_bytes_nth bytes : forall mem a i,
  Z.of_nat (length bytes) <= 16777216 ->
  (i < length bytes)%nat ->
  store_bytes mem a bytes ((a + Z.of_nat i) mod 16777216) = nth i bytes 0.
Proof.
  induction bytes as [|b bytes IH]; intros mem a i Hlen Hi; simpl in *.
  - lia.
  - destruct i as [|i].
    + rewrite store_bytes_other.
      * rewrite Z.add_0_r, Z.eqb_refl. reflexivity.
      * intros j Hj. rewrite Z.add_0_r.
        replace (a + 1 + j) with (a + (j + 1)) by lia.
        apply mod_add_distinct. lia.
    + replace (a + Z.of_nat (S i)) with (a + 1 + Z.of_nat i) by lia.
      apply IH; lia.
Qed.

Lemma read_back_stored bytes mem a :
  Z.of_nat (length bytes) <= 16777216 ->
  read_back (store_bytes mem a bytes) a (length bytes) = bytes.
Proof.
  intros Hlen. unfold read_back.
  transitivity (firstn (length bytes) bytes); [|apply firstn_all].
  rewrite <- map_nth_seq by lia.
  apply map_ext_in. intros i Hi. apply in_seq in Hi.
  apply store_bytes_nth; [exact Hlen | lia].
Qed.

(** ** Command sequencing *)


Lemma commands_frames dev cs : commands (frames dev cs) = cycle_opcodes cs.
Proof. unfold commands. rewrite cycles_frames. reflexivity. Qed.



(** A completed busy-wait ends with a poll answered not busy. *)
Lemma busy_wait_last oc g :
  busy_wait oc g ->
  exists g' c status,
    g = g' ++ [c] /\ status_poll oc status c /\ Z.land status 1 = 0.
Proof.
  induction 1 as [c status Hc Hs | c status cs Hc Hs _ IH].
  - exists [], c, status. auto.
  - destruct IH as (g' & c' & status' & -> & Hc' & Hs').
    exists (c :: g'), c', status'. auto.
Qed.



Lemma opcode_of_mosi c op rest : mosi c = op :: rest -> opcode_of c = Some op.
Proof. intros H. unfold opcode_of. rewrite H. reflexivity. Qed.


Lemma has_opcode_busy_wait oc op g :
  busy_wait oc g -> op <> SPIFLASH_STATUSREAD oc ->
  filter (has_opcode op) g = [].
Proof.
  intros Hg Hop.
  induction Hg as [c status [r ->] _ | c status cs [r ->] _ _ IH];
    cbn [filter has_opcode opcode_of mosi map fst hd_error].
  - destruct (Z.eqb_spec (SPIFLASH_STATUSREAD oc) op); [congruence|].
    reflexivity.
  - destruct (Z.eqb_spec (SPIFLASH_STATUSREAD oc) op); [congruence|].
    exact IH.
Qed.

Lemma has_opcode_prelude oc op w pre :
  prelude oc w pre ->
  op <> SPIFLASH_STATUSREAD oc -> op <> SPIFLASH_WRITEENABLE oc ->
  filter (has_opcode op) pre = [].
Proof.
  intros Hpre Hsr Hwe. destruct Hpre as [g Hg | g1 r g2 Hg1 Hg2].
  - apply (has_opcode_busy_wait Hg Hsr).
  - rewrite !filter_app, (has_opcode_busy_wait Hg1 Hsr).
    cbn [filter has_opcode opcode_of mosi map fst hd_error app].
    destruct (Z.eqb_spec (SPIFLASH_WRITEENABLE oc) op); [congruence|].
    apply (has_opcode_busy_wait Hg2 Hsr).
Qed.

Lemma has_opcode_mosi c op rest :
  mosi c = op :: rest -> has_opcode op c = true.
Proof.
  intros H. unfold has_opcode. rewrite (opcode_of_mosi _ H).
  apply Z.eqb_refl.
Qed.

Lemma msb_first_of_bytes b2 b1 b0 :
  0 <= b2 < 256 -> 0 <= b1 < 256 -> 0 <= b0 < 256 ->
  msb_first (addr_of_bytes b2 b1 b0) = [b2; b1; b0].
Proof.
  intros H2 H1 H0. unfold msb_first, addr_of_bytes.
  assert (E2 : (b2 * 65536 + b1 * 256 + b0) / 65536 = b2).
  { symmetry. apply Z.div_unique with (r := b1 * 256 + b0); lia. }
  assert (E1 : (b2 * 65536 + b1 * 256 + b0) / 256 = b2 * 256 + b1).
  { symmetry. apply Z.div_unique with (r := b0); lia. }
  assert (E0 : (b2 * 65536 + b1 * 256 + b0) mod 256 = b0).
  { symmetry. apply Z.mod_unique with (q := b2 * 256 + b1); lia. }
  rewrite E2, E1, E0. do 2 f_equal.
  symmetry. apply Z.mod_unique with (q := b2); lia.
Qed.

Lemma addr_bytes_msb_first addr :
  addr_bytes addr = msb_first (addr mod 16777216).
Proof.
  rewrite <- addr_of_addr_bytes, msb_first_of_bytes;
    try (rewrite <- u8_land; apply u8_range).
  reflexivity.
Qed.

Lemma map_const_repeat {A} (l : list A) :
  map (fun _ => 0) l = repeat 0 (length l).
Proof. induction l as [|x l IH]; simpl; [reflexivity | f_equal; exact IH]. Qed.

Section Sequencing.

Variable oc : Opcodes.
Variable chip : transcript -> Z -> Z.
Variable dev : SPIFlash.
Hypothesis Hoc : opcodes_ok oc = true.

Lemma programmed_program_cycles buf addr offset len cs :
  programmed oc buf addr offset len cs ->
  map mosi (filter (has_opcode (SPIFLASH_BYTEPAGEPROGRAM oc)) cs)
  = map (program_bytes oc) (keep_some (map (chunk_of oc) cs)).
Proof.
  induction 1 as [|addr offset len n pre c rest Hlen Hn Hpre Hc _ IH].
  - reflexivity.
  - rewrite filter_app, (has_opcode_prelude Hpre) by op_neq.
    rewrite (map_app (chunk_of oc)), keep_some_app, (prelude_no_chunk Hpre).
    cbn [app filter map]. rewrite (has_opcode_mosi _ Hc).
    rewrite (@chunk_of_program oc c _ _ Hc). cbn [keep_some map].
    rewrite IH. f_equal. rewrite Hc. unfold program_bytes, chunk_start.
    cbn [fst snd]. rewrite addr_bytes_msb_first. reflexivity.
Qed.


(** The operations that issue one addressed command. *)
Lemma addressed_call_Some fuel c op addr rest h u d :
  addressed oc c = Some (op, addr, rest) ->
  perform oc chip dev fuel c h = Some (u, d) ->
  exists pre cyc,
    d = frames dev (pre ++ [cyc]) /\ mosi cyc = op :: addr_bytes addr ++ rest.
Proof.
  intros Hop H. destruct c; try discriminate; injection Hop as <- <- <-;
    cbn [perform] in H.
  - apply bind_Some in H. destruct H as (x & d1 & d2 & H & Hret & ->).
    injection Hret as _ <-. rewrite app_nil_r.
    apply (@readByte_Some oc chip dev Hoc) in H.
    destruct H as (pre & cyc & -> & _ & Hc & _). eauto.
  - apply bind_Some in H. destruct H as (x & d1 & d2 & H & Hret & ->).
    injection Hret as _ <-. rewrite app_nil_r.
    apply (@readBytes_Some oc chip dev Hoc) in H.
    destruct H as (pre & cyc & -> & _ & Hc & _ & Hlen & _).
    exists pre, cyc. split; [reflexivity|].
    rewrite Hc, map_const_repeat, Hlen. reflexivity.
  - apply (@writeByte_Some oc chip dev Hoc) in H.
    destruct H as (pre & cyc & -> & _ & Hc). eauto.
  - apply (@blockErase4K_Some oc chip dev Hoc) in H.
    destruct H as (pre & cyc & -> & _ & Hc).
    exists pre, cyc. rewrite app_nil_r. auto.
  - apply (@blockErase32K_Some oc chip dev Hoc) in H.
    destruct H as (pre & cyc & -> & _ & Hc).
    exists pre, cyc. rewrite app_nil_r. auto.
  - apply (@blockErase64K_Some oc chip dev Hoc) in H.
    destruct H as (pre & cyc & -> & _ & Hc).
    exists pre, cyc. rewrite app_nil_r. auto.
Qed.

End Sequencing.

Section Discipline.

Variable oc : Opcodes.
Variable chip : transcript -> Z -> Z.
Variable dev : SPIFlash.
Hypothesis Hoc : opcodes_ok oc = true.

Lemma command_send_waits fuel cmd h :
  u8 cmd <> SPIFLASH_WAKE oc ->
  command_send oc chip dev fuel cmd h <> None ->
  gate_opens oc chip dev fuel h.
Proof.
  intros Hcmd H Hgate. apply H. unfold command_send.
  apply Z.eqb_neq in Hcmd. rewrite Hcmd. cbn [negb].
  apply bind_None_l. exact Hgate.
Qed.

Lemma command_plain_waits fuel cmd h :
  u8 cmd <> SPIFLASH_WAKE oc ->
  command oc chip dev fuel cmd false h <> None ->
  gate_opens oc chip dev fuel h.
Proof.
  intros Hcmd H. apply command_send_waits with (cmd := cmd); [exact Hcmd|].
  intros Hsend. apply H. unfold command, bind at 1. cbn [ret].
  rewrite app_nil_r, Hsend. reflexivity.
Qed.

Lemma framed_intro cs :
  exists pfx cs',
    frames dev cs = pfx ++ frames dev cs'
    /\ bus_run released pfx = Some released.
Proof. exists [], cs. auto. Qed.

(** Every run of a public operation is a sequence of complete frames,
    after the pin and bus set-up of [initialize]. *)
Lemma perform_framed fuel c h u d :
  perform oc chip dev fuel c h = Some (u, d) ->
  exists pfx cs,
    d = pfx ++ frames dev cs /\ bus_run released pfx = Some released.
Proof.
  intros H.
  destruct c; cbn [perform] in H;
    try (apply bind_Some in H; destruct H as (x & d1 & d2 & H & Hret & ->);
         injection Hret as _ <-; rewrite app_nil_r).
  - apply (@initialize_Some oc chip dev Hoc) in H.
    destruct H as (rw & ids & tail & -> & _ & _).
    exists ([PinModeOutput (_slaveSelectPin dev); SpiBegin] ++ closing dev).
    eexists. rewrite <- app_assoc. split; reflexivity.
  - apply (@readDeviceId_cycle oc chip dev Hoc) in H.
    destruct H as (cyc & -> & _). apply framed_intro.
  - apply (@readUniqueId_Some oc chip dev Hoc) in H.
    destruct H as (pre & cyc & -> & _). apply framed_intro.
  - apply (@readByte_Some oc chip dev Hoc) in H.
    destruct H as (pre & cyc & -> & _). apply framed_intro.
  - apply (@readBytes_Some oc chip dev Hoc) in H.
    destruct H as (pre & cyc & -> & _). apply framed_intro.
  - apply (@readStatus_Some oc chip dev Hoc) in H.
    destruct H as (r & ->). rewrite <- frames_one. apply framed_intro.
  - apply (@busy_Some oc chip dev Hoc) in H.
    destruct H as (r & status & -> & _).
    rewrite <- frames_one. apply framed_intro.
  - apply (@writeByte_Some oc chip dev Hoc) in H.
    destruct H as (pre & cyc & -> & _). apply framed_intro.
  - unfold writeBytes in H.
    apply (@writeBytes_loop_framed oc chip dev Hoc) in H.
    destruct H as (cs & ->). apply framed_intro.
  - apply (@chipErase_Some oc chip dev Hoc) in H.
    destruct H as (pre & cyc & -> & _). apply framed_intro.
  - apply (@blockErase4K_Some oc chip dev Hoc) in H.
    destruct H as (pre & cyc & -> & _). apply framed_intro.
  - apply (@blockErase32K_Some oc chip dev Hoc) in H.
    destruct H as (pre & cyc & -> & _). apply framed_intro.
  - apply (@blockErase64K_Some oc chip dev Hoc) in H.
    destruct H as (pre & cyc & -> & _). apply framed_intro.
  - apply (@found_Some oc chip dev Hoc) in H.
    destruct H as (rw & ids & cs & -> & _). apply framed_intro.
  - unfold regionIsEmpty in H.
    apply bind_Some in H. destruct H as (buf & d3 & d4 & H & Hret & ->).
    injection Hret as _ <-. rewrite app_nil_r.
    apply (@readBytes_Some oc chip dev Hoc) in H.
    destruct H as (pre & cyc & -> & _). apply framed_intro.
  - apply (@sleep_Some oc chip dev Hoc) in H.
    destruct H as (pre & cyc & -> & _). apply framed_intro.
  - apply (@wakeup_Some oc chip dev Hoc) in H.
    destruct H as (r & ->). rewrite <- frames_one. apply framed_intro.
  - injection H as _ <-. exists [SpiEnd], []. auto.
Qed.

End Discipline.

(** ** Lifecycle and region checks *)

Lemma cycles_setup dev t :
  cycles ([PinModeOutput (_slaveSelectPin dev); SpiBegin] ++ closing dev ++ t)
  = cycles t.
Proof. reflexivity. Qed.

Lemma busy_wait_no_id oc g :
  busy_wait oc g -> keep_some (map (id_of oc) g) = [].
Proof.
  induction 1 as [c status [r ->] _ | c status cs [r ->] _ _ IH].
  - reflexivity.
  - simpl. exact IH.
Qed.

Lemma prelude_no_id oc w pre :
  prelude oc w pre -> keep_some (map (id_of oc) pre) = [].
Proof.
  destruct 1 as [g Hg | g1 r g2 Hg1 Hg2].
  - apply busy_wait_no_id. exact Hg.
  - rewrite !map_app, !keep_some_app, (busy_wait_no_id Hg1). simpl.
    apply busy_wait_no_id. exact Hg2.
Qed.

Lemma id_of_two oc c a b : mosi c = [a; b] -> id_of oc c = None.
Proof.
  destruct c as [|[o1 i1] [|[o2 i2] [|x c]]]; try discriminate.
  reflexivity.
Qed.

Lemma id_cycles_opcodes oc ids cs :
  Forall2 (id_cycle oc) ids cs ->
  cycle_opcodes cs = repeat (SPIFLASH_IDREAD oc) (length ids).
Proof.
  induction 1 as [|id c ids cs (r & hi & lo & -> & _) _ IH].
  - reflexivity.
  - change (cycle_opcodes ([(SPIFLASH_IDREAD oc, r); (0, hi); (0, lo)] :: cs))
      with (SPIFLASH_IDREAD oc :: cycle_opcodes cs).
    rewrite IH. reflexivity.
Qed.

Lemma all_ff_spec l : all_ff l = true <-> Forall (fun x => x = 255) l.
Proof.
  induction l as [|b l IH]; simpl.
  - split; [constructor | reflexivity].
  - destruct (Z.eqb_spec b 255) as [-> | Hne]; cbn [negb].
    + rewrite IH. split.
      * intros H. constructor; [reflexivity | exact H].
      * intros H. inversion H; assumption.
    + split; [discriminate|]. intros H. inversion H; contradiction.
Qed.

Section Checks.

Variable oc : Opcodes.
Variable chip : transcript -> Z -> Z.
Variable dev : SPIFlash.
Hypothesis Hoc : opcodes_ok oc = true.

Lemma readBytes_returns_iff fuel addr len h :
  readBytes oc chip dev fuel addr len h <> None
  <-> gate_opens oc chip dev fuel h.
Proof.
  assert (E : u8 (SPIFLASH_ARRAYREAD oc) = SPIFLASH_ARRAYREAD oc) by op_byte.
  assert (Hne : u8 (SPIFLASH_ARRAYREAD oc) <> SPIFLASH_WAKE oc)
    by (rewrite E; op_neq).
  unfold readBytes. split.
  - intros H. apply (@command_plain_waits oc chip dev fuel _ h Hne).
    intros Hcmd. apply H. apply bind_None_l. exact Hcmd.
  - intros Hg. apply bind_returns.
    + apply command_plain_returns. right. exact Hg.
    + intros _.
      do 4 (apply total_bind; [apply total_transfer | intros _]).
      apply total_bind; [apply total_repeatM, total_transfer | intros buf].
      apply total_bind; [apply total_unselect | intros _]. apply total_ret.
Qed.

Lemma regionIsEmpty_returns_iff fuel addr len h :
  regionIsEmpty oc chip dev fuel addr len h <> None
  <-> gate_opens oc chip dev fuel h.
Proof.
  rewrite <- (readBytes_returns_iff fuel addr len h).
  unfold regionIsEmpty, bind.
  destruct (readBytes oc chip dev fuel addr len h) as [[buf d]|].
  - split; discriminate.
  - tauto.
Qed.

Lemma status_writes_initialize rw ids tail :
  (ids = [] \/ exists id c, ids = [c] /\ id_cycle oc id c) ->
  filter (has_opcode (SPIFLASH_STATUSWRITE oc))
         ([(SPIFLASH_WAKE oc, rw)] :: ids ++ tail)
  = filter (has_opcode (SPIFLASH_STATUSWRITE oc)) tail.
Proof.
  intros Hids.
  assert (Hw : (SPIFLASH_WAKE oc =? SPIFLASH_STATUSWRITE oc) = false)
    by (apply Z.eqb_neq; op_neq).
  assert (Hi : (SPIFLASH_IDREAD oc =? SPIFLASH_STATUSWRITE oc) = false)
    by (apply Z.eqb_neq; op_neq).
  cbn [filter has_opcode opcode_of mosi map fst hd_error]. rewrite Hw.
  destruct Hids as [-> | (id & c & -> & r & hi & lo & -> & _)].
  - reflexivity.
  - cbn [app filter has_opcode opcode_of mosi map fst hd_error].
    rewrite Hi. reflexivity.
Qed.

End Checks.

(** * Properties of the specification *)

(** C1: every page-program chunk that [writeBytes] issues lies in one
    256-byte page; the first chunk is clipped to what is left of the page of
    the start address, every later chunk starts on a page boundary and is
    at most 256 bytes long.  The chunks are all the page-program cycles of
    the transcript.  On a responsive chip the call returns. *)
Theorem writeBytes_chunks_within_page oc chip dev fuel a buf n h :
  opcodes_ok oc = true ->
  0 <= n < 65536 ->
  (responsive oc chip dev fuel ->
   writeBytes oc chip dev fuel a buf n h <> None)
  /\ forall d,
       writeBytes oc chip dev fuel a buf n h = Some (tt, d) ->
       map mosi (filter (has_opcode (SPIFLASH_BYTEPAGEPROGRAM oc)) (cycles d))
       = map (program_bytes oc) (chunks oc d)
       /\ Forall in_one_page (chunks oc d)
       /\ match chunks oc d with
          | [] => n = 0
          | k :: ks =>
              chunk_start k = a mod 16777216
              /\ chunk_len k = Z.min n (256 - a mod 256)
              /\ Forall page_aligned ks
          end.
Proof.
  intros Hoc Hn. split.
  - intros Hresp. apply total_writeBytes; assumption.
  - intros d H. apply (@writeBytes_Some oc chip dev Hoc) in H; [|exact Hn].
    destruct H as (cs & -> & Hprog). unfold chunks.
    rewrite cycles_frames. split.
    + apply (programmed_program_cycles Hoc Hprog).
    + apply programmed_planned in Hprog. split.
      * eapply planned_in_one_page. exact Hprog.
      * apply (planned_first Hprog).
Qed.

(** C2: on a responsive chip [writeBytes] returns, whatever the length
    and the start address.  When it has returned, the chunk lengths sum to
    [n], the chunks cover consecutive addresses from [a] on (modulo the
    24-bit address space), their payloads concatenated are the first [n]
    bytes of the buffer, and a memory that stores the chunks reads back
    those bytes from [a]. *)
Theorem writeBytes_chunks_cover_buffer oc chip dev fuel a buf n h :
  opcodes_ok oc = true ->
  0 <= n < 65536 ->
  (Z.to_nat n <= length buf)%nat ->
  Forall (fun b => 0 <= b < 256) buf ->
  (responsive oc chip dev fuel ->
   writeBytes oc chip dev fuel a buf n h <> None)
  /\ forall d,
       writeBytes oc chip dev fuel a buf n h = Some (tt, d) ->
       total_len (chunks oc d) = n
       /\ consecutive_from a (chunks oc d)
       /\ payloads (chunks oc d) = firstn (Z.to_nat n) buf
       /\ forall mem,
            read_back (program_chunks mem (chunks oc d)) a (Z.to_nat n)
            = firstn (Z.to_nat n) buf.
Proof.
  intros Hoc Hn Hlen Hbytes. split.
  { intros Hresp. apply total_writeBytes; assumption. }
  intros d H.
  apply (@writeBytes_Some oc chip dev Hoc) in H; [|exact Hn].
  destruct H as (cs & -> & Hprog). unfold chunks. rewrite cycles_frames.
  apply programmed_planned in Hprog.
  set (ks := keep_some (map (chunk_of oc) cs)) in *.
  assert (Hpay : payloads ks = firstn (Z.to_nat n) buf).
  { rewrite (planned_payloads Hprog), buf_slice_firstn by exact Hlen.
    apply map_u8_bytes, Forall_firstn_of. exact Hbytes. }
  pose proof (planned_consecutive Hprog) as Hcons.
  repeat split.
  - apply (planned_total_len Hprog).
  - exact Hcons.
  - exact Hpay.
  - intros mem. rewrite (program_chunks_flat ks mem a Hcons), Hpay.
    assert (Hn' : length (firstn (Z.to_nat n) buf) = Z.to_nat n).
    { rewrite length_firstn. lia. }
    pose proof (@read_back_stored (firstn (Z.to_nat n) buf) mem a) as Hrb.
    rewrite Hn' in Hrb. apply Hrb. lia.
Qed.


(** C4: [initialize] returns success exactly when no identifier is
    expected ([_jedecID] is 0, and then none is read) or the one identifier
    read equals the expected one.  A successful run holds exactly one
    status-register write, of the byte [0x00]; a failed run holds none.
    On a responsive chip the call returns. *)
Theorem initialize_checks_identifier oc chip dev fuel h :
  opcodes_ok oc = true ->
  (responsive oc chip dev fuel -> initialize oc chip dev fuel h <> None)
  /\ forall b d,
       initialize oc chip dev fuel h = Some (b, d) ->
       (b = true <-> _jedecID dev = 0 \/ id_reads oc d = [_jedecID dev])
       /\ (if b
           then map mosi (status_writes oc d) = [[SPIFLASH_STATUSWRITE oc; 0]]
           else status_writes oc d = [])
       /\ (if _jedecID dev =? 0 then id_reads oc d = []
           else length (id_reads oc d) = 1%nat).
Proof.
  intros Hoc. split.
  - intros Hresp. apply total_initialize; assumption.
  - intros b d H.
    apply (@initialize_Some oc chip dev Hoc) in H.
    destruct H as (rw & ids & tail & -> & Hids & Htail).
    unfold id_reads, status_writes. rewrite cycles_setup, cycles_frames.
    assert (Hno : keep_some (map (id_of oc) tail) = []).
    { destruct b.
      - destruct Htail as (pre & c & -> & Hpre & Hc).
        rewrite map_app, keep_some_app, (prelude_no_id Hpre).
        cbn [app map]. rewrite (id_of_two oc _ Hc). reflexivity.
      - subst tail. reflexivity. }
    assert (Hsw : filter (has_opcode (SPIFLASH_STATUSWRITE oc))
                    ([(SPIFLASH_WAKE oc, rw)] :: ids ++ tail)
                  = filter (has_opcode (SPIFLASH_STATUSWRITE oc)) tail).
    { apply status_writes_initialize; [exact Hoc|].
      destruct (_jedecID dev =? 0).
      - left. tauto.
      - right. destruct Hids as (id & c & -> & Hc & _). eauto. }
    rewrite Hsw. clear Hsw.
    cbn [map id_of keep_some]. rewrite map_app, keep_some_app, Hno, app_nil_r.
    split; [|split].
    + destruct (Z.eqb_spec (_jedecID dev) 0) as [E0 | Hne].
      * destruct Hids as [-> ->]. tauto.
      * destruct Hids as (id & c & -> & Hc & ->).
        rewrite (id_of_cycles (ids := [id]) (cs := [c]))
          by (constructor; [exact Hc | constructor]).
        destruct (Z.eqb_spec id (_jedecID dev)) as [-> | Hid].
        -- tauto.
        -- split; [discriminate|]. intros [E | E]; [contradiction|].
           injection E as E. contradiction.
    + destruct b.
      * destruct Htail as (pre & c & -> & Hpre & Hc).
        rewrite filter_app, (has_opcode_prelude Hpre) by op_neq.
        cbn [app filter]. rewrite (has_opcode_mosi _ Hc). cbn [map].
        rewrite Hc. reflexivity.
      * subst tail. reflexivity.
    + destruct (_jedecID dev =? 0).
      * destruct Hids as [-> _]. reflexivity.
      * destruct Hids as (id & c & -> & Hc & _).
        rewrite (id_of_cycles (ids := [id]) (cs := [c]))
          by (constructor; [exact Hc | constructor]).
        reflexivity.
Qed.

(** C5: [found] wakes the chip and then reads the identifier, at most ten
    times and never anything else.  It answers true exactly when every
    identifier read is non-zero, not [0xFFFF] and equal to the first one,
    and then it has read ten; it answers false with the first identifier
    that breaks one of these conditions, which is the last one it reads.
    It always returns. *)
Theorem found_requires_consistent_identifier oc chip dev fuel h :
  opcodes_ok oc = true ->
  exists b d,
    found oc chip dev fuel h = Some (b, d)
    /\ let ids := id_reads oc d in
       commands d = SPIFLASH_WAKE oc :: repeat (SPIFLASH_IDREAD oc) (length ids)
       /\ (1 <= length ids <= 10)%nat
       /\ (b = true <-> Forall (valid_id (hd 0 ids)) ids)
       /\ (b = true -> length ids = 10%nat)
       /\ (b = false ->
           exists good bad,
             ids = good ++ [bad]
             /\ Forall (valid_id (hd 0 ids)) good
             /\ ~ valid_id (hd 0 ids) bad).
Proof.
  intros Hoc.
  destruct (found oc chip dev fuel h) as [[b d]|] eqn:H.
  2:{ exfalso. revert H. apply total_found. exact Hoc. }
  exists b, d. split; [reflexivity|].
  apply (@found_Some oc chip dev Hoc) in H.
  destruct H as (rw & ids & cs & -> & Hcs & Hlen & Hres).
  unfold id_reads. rewrite commands_frames, cycles_frames.
  cbn [map id_of keep_some]. rewrite (id_of_cycles Hcs). cbv zeta.
  split; [|split; [exact Hlen | split; [|split]]].
  - change (cycle_opcodes ([(SPIFLASH_WAKE oc, rw)] :: cs))
      with (SPIFLASH_WAKE oc :: cycle_opcodes cs).
    rewrite (id_cycles_opcodes Hcs). reflexivity.
  - destruct b.
    + tauto.
    + destruct Hres as (good & bad & E & Hgood & Hbad).
      split; [discriminate|]. intros Hall. exfalso. apply Hbad.
      rewrite E in Hall at 2. apply Forall_app in Hall.
      destruct Hall as [_ Hall]. inversion Hall; assumption.
  - intros ->. tauto.
  - intros ->. exact Hres.
Qed.

(** C6: [regionIsEmpty] reads [length] bytes (at most 255) from
    [startAddress] in one fast-read cycle and answers true exactly when
    every byte read is [0xFF]; a single other byte anywhere in the region,
    the first and the last position included, makes it answer false.  It
    returns exactly when the busy-wait before the read ends. *)
Theorem regionIsEmpty_iff_all_ff oc chip dev fuel startAddress length h :
  opcodes_ok oc = true ->
  0 <= length <= 255 ->
  (regionIsEmpty oc chip dev fuel startAddress length h <> None
   <-> gate_opens oc chip dev fuel h)
  /\ forall b d,
       regionIsEmpty oc chip dev fuel startAddress length h = Some (b, d) ->
       exists pre c,
         d = frames dev (pre ++ [c])
         /\ mosi c = SPIFLASH_ARRAYREAD oc
                       :: addr_bytes startAddress
                       ++ repeat 0 (S (Z.to_nat length))
         /\ List.length (skipn 5 (miso c)) = Z.to_nat length
         /\ (b = true <-> Forall (fun x => x = 255) (skipn 5 (miso c)))
         /\ (forall i, (i < Z.to_nat length)%nat ->
                       nth i (skipn 5 (miso c)) 255 <> 255 -> b = false).
Proof.
  intros Hoc Hlen. split.
  - apply regionIsEmpty_returns_iff. exact Hoc.
  - intros b d H. unfold regionIsEmpty in H.
    apply bind_Some in H. destruct H as (buf & d1 & d2 & H & Hret & ->).
    injection Hret as <- <-. rewrite app_nil_r.
    apply (@readBytes_Some oc chip dev Hoc) in H.
    destruct H as (pre & c & -> & _ & Hc & Hdata & Hn & _).
    exists pre, c. rewrite Hdata.
    split; [reflexivity|]. split; [|split; [exact Hn | split]].
    + rewrite Hc, map_const_repeat, Hn. reflexivity.
    + apply all_ff_spec.
    + intros i Hi Hnth. destruct (all_ff buf) eqn:E; [|reflexivity].
      exfalso. apply Hnth. apply all_ff_spec in E.
      rewrite Forall_forall in E. apply E. apply nth_In. lia.
Qed.

(** C7: on a responsive chip every operation returns.  Every addressed
    operation that has returned sent, right after the opcode, the three
    bytes of the 24-bit address, most significant first (bits 23..16, then
    15..8, then 7..0), followed by its payload or filler bytes only.
    [writeBytes] that has returned sent one page-program cycle per chunk,
    each carrying the start address of its chunk in the same way; the
    chunks hold [n] bytes in all and cover consecutive addresses, and for
    [n > 0] the first cycle carries the start address [a] itself.  Address
    [0x012345] goes out as [0x01], [0x23], [0x45]. *)
Theorem address_sent_most_significant_first oc chip dev fuel c h :
  opcodes_ok oc = true ->
  (responsive oc chip dev fuel -> perform oc chip dev fuel c h <> None)
  /\ (forall d,
        perform oc chip dev fuel c h = Some (tt, d) ->
        (forall op addr rest,
           addressed oc c = Some (op, addr, rest) -> 0 <= addr < 16777216 ->
           exists pre cyc,
             d = frames dev (pre ++ [cyc])
             /\ mosi cyc = op :: msb_first addr ++ rest
             /\ forall i, 0 <= i < 8 ->
                  Z.testbit (addr / 65536) i = Z.testbit addr (i + 16)
                  /\ Z.testbit ((addr / 256) mod 256) i
                     = Z.testbit addr (i + 8)
                  /\ Z.testbit (addr mod 256) i = Z.testbit addr i)
        /\ (forall a buf n,
              c = WriteBytes a buf n -> 0 <= n < 65536 ->
              map mosi (filter (has_opcode (SPIFLASH_BYTEPAGEPROGRAM oc))
                               (cycles d))
              = map (program_bytes oc) (chunks oc d)
              /\ consecutive_from a (chunks oc d)
              /\ total_len (chunks oc d) = n
              /\ (0 < n ->
                  exists cyc rest,
                    filter (has_opcode (SPIFLASH_BYTEPAGEPROGRAM oc))
                           (cycles d) = cyc :: rest
                    /\ firstn 4 (mosi cyc)
                       = SPIFLASH_BYTEPAGEPROGRAM oc
                           :: msb_first (a mod 16777216))))
  /\ msb_first 0x012345 = [0x01; 0x23; 0x45].
Proof.
  intros Hoc. split; [|split; [|reflexivity]].
  { intros Hresp. apply total_perform; assumption. }
  intros d H. split.
  - intros op addr rest Hop Haddr.
    destruct (@addressed_call_Some oc chip dev Hoc fuel c op addr rest h tt d
                Hop H) as (pre & cyc & -> & Hcyc).
    assert (E : addr_bytes addr = msb_first addr).
    { rewrite addr_bytes_msb_first, Z.mod_small by exact Haddr. reflexivity. }
    exists pre, cyc. split; [reflexivity|]. split; [rewrite <- E; exact Hcyc|].
    intros i Hi. pose proof (addr_bytes_bits addr Hi) as Hbits.
    rewrite E in Hbits. exact Hbits.
  - intros a buf n -> Hn. cbn [perform] in H.
    apply (@writeBytes_Some oc chip dev Hoc) in H; [|exact Hn].
    destruct H as (cs & -> & Hprog). unfold chunks. rewrite cycles_frames.
    pose proof (programmed_program_cycles Hoc Hprog) as Hcyc.
    pose proof (programmed_planned Hprog) as Hplan.
    split; [exact Hcyc|].
    split; [apply (planned_consecutive Hplan)|].
    split; [apply (planned_total_len Hplan)|].
    intros Hpos. pose proof (planned_first Hplan) as Hfirst.
    destruct (keep_some (map (chunk_of oc) cs)) as [|k ks]; [lia|].
    destruct Hfirst as (Hstart & _).
    destruct (filter (has_opcode (SPIFLASH_BYTEPAGEPROGRAM oc)) cs)
      as [|cyc rest]; [discriminate Hcyc|].
    exists cyc, rest. split; [reflexivity|].
    cbn [map] in Hcyc. injection Hcyc as Hc _. rewrite Hc, <- Hstart.
    reflexivity.
Qed.

(** C8: of all opcodes handed to [command], the wake-up opcode alone is
    sent without the busy-wait: it goes out at once, whatever the chip
    would answer to a status poll.  Any other opcode is sent only if the
    busy-wait ends, and then the cycle right before it is a status poll
    that the chip answered not busy. *)
Theorem only_wakeup_skips_busy_wait oc chip dev fuel cmd h :
  opcodes_ok oc = true ->
  0 <= cmd < 256 ->
  (cmd = SPIFLASH_WAKE oc ->
   exists r,
     command oc chip dev fuel cmd false h = Some (tt, opened dev [(cmd, r)]))
  /\ (cmd <> SPIFLASH_WAKE oc ->
      (command oc chip dev fuel cmd false h <> None
       <-> gate_opens oc chip dev fuel h)
      /\ forall isWrite d,
           command oc chip dev fuel cmd isWrite h = Some (tt, d) ->
           exists pre c status r,
             d = frames dev (pre ++ [c]) ++ opened dev [(cmd, r)]
             /\ status_poll oc status c /\ Z.land status 1 = 0).
Proof.
  intros Hoc Hcmd. pose proof (u8_small Hcmd) as Eu8. split.
  - intros ->.
    destruct (command oc chip dev fuel (SPIFLASH_WAKE oc) false h)
      as [[[] d]|] eqn:E.
    + destruct (@command_wake_Some oc chip dev Hoc fuel h tt d E)
        as (r & -> & _).
      exists r. reflexivity.
    + exfalso. revert E.
      apply (@command_plain_returns oc chip dev fuel (SPIFLASH_WAKE oc) h).
      left. exact Eu8.
  - intros Hne. assert (Hne' : u8 cmd <> SPIFLASH_WAKE oc) by congruence.
    split; [split|].
    + apply (@command_plain_waits oc chip dev fuel cmd h Hne').
    + intros Hg. apply (@command_plain_returns oc chip dev fuel cmd h).
      right. exact Hg.
    + intros isWrite d H.
      destruct (@command_Some oc chip dev Hoc fuel cmd isWrite h tt d Hne' H)
        as (pre & r & -> & Hpre & _).
      rewrite Eu8.
      assert (Hlast : exists pre' g, pre = pre' ++ g /\ busy_wait oc g).
      { destruct Hpre as [g Hg | g1 r1 g2 Hg1 Hg2].
        - exists [], g. auto.
        - exists (g1 ++ [[(SPIFLASH_WRITEENABLE oc, r1)]]), g2.
          rewrite <- app_assoc. auto. }
      destruct Hlast as (pre' & g & -> & Hg).
      destruct (busy_wait_last Hg) as (g' & c & status & -> & Hc & Hs).
      exists (pre' ++ g'), c, status, r. rewrite <- app_assoc. auto.
Qed.

(** C9: every public operation keeps the scoped-acquisition discipline:
    started with the bus released, it transfers bytes only while the
    transaction is open and the chip selected, and when it returns -- with
    success or, for [initialize], with failure -- the chip is deselected
    and the transaction ended. *)
Theorem public_operations_release_the_bus oc chip dev fuel c h d :
  opcodes_ok oc = true ->
  perform oc chip dev fuel c h = Some (tt, d) ->
  bus_run released d = Some released.
Proof.
  intros Hoc H.
  destruct (@perform_framed oc chip dev Hoc fuel c h tt d H)
    as (pfx & cs & -> & Hpfx).
  rewrite bus_run_app, Hpfx. apply bus_run_frames.
Qed.

(** C10: writing zero bytes returns at once with nothing on the bus: no
    write-enable, no status poll, no page-program opcode and no bus
    acquisition.  The transcript, and with it the chip, are as before:
    whatever runs next runs as if the call had not been made. *)
Theorem writeBytes_zero_length oc chip dev fuel addr buf h :
  writeBytes oc chip dev fuel addr buf 0 h = Some (tt, [])
  /\ forall A (k : M A),
       (writeBytes oc chip dev fuel addr buf 0 ;; k) h = k h.
Proof.
  assert (E : writeBytes oc chip dev fuel addr buf 0 h = Some (tt, []))
    by reflexivity.
  split; [exact E|].
  intros A k. unfold bind. rewrite E, app_nil_r.
  destruct (k h) as [[a d]|]; reflexivity.
Qed.

(** * The properties at concrete inputs *)

(** A chip that answers every byte with zero is never busy. *)
Lemma idle_chip_responsive oc dev : responsive oc idle_chip dev 1.
Proof. intros h. discriminate. Qed.

(** Five bytes written at [0xFE] cross a page boundary: two chunks. *)
Lemma writeBytes_chunks_within_page_witness :
  exists d,
    writeBytes w25x_opcodes idle_chip (test_dev 0) 1 0xFE [1; 2; 3; 4; 5] 5 []
    = Some (tt, d)
    /\ chunks w25x_opcodes d = [(0xFE, [1; 2]); (0x100, [3; 4; 5])]
    /\ Forall in_one_page (chunks w25x_opcodes d).
Proof.
  eexists. split; [vm_compute; reflexivity|]. split; [reflexivity|].
  apply (proj2 (@writeBytes_chunks_within_page w25x_opcodes idle_chip
                  (test_dev 0) 1 0xFE [1; 2; 3; 4; 5] 5 []
                  eq_refl ltac:(lia)) _ ltac:(vm_compute; reflexivity)).
Defined.

Lemma writeBytes_chunks_cover_buffer_witness :
  writeBytes w25x_opcodes idle_chip (test_dev 0) 1 0xF0 (repeat 7 600) 600 []
  <> None
  /\ exists d,
       writeBytes w25x_opcodes (slow_chip w25x_opcodes) (test_dev 0) 2
                  0xFFFFFE [1; 2; 3; 4; 5] 5 []
       = Some (tt, d)
       /\ chunks w25x_opcodes d = [(0xFFFFFE, [1; 2]); (0, [3; 4; 5])]
       /\ total_len (chunks w25x_opcodes d) = 5
       /\ consecutive_from 0xFFFFFE (chunks w25x_opcodes d)
       /\ payloads (chunks w25x_opcodes d) = [1; 2; 3; 4; 5].
Proof.
  split.
  - apply (proj1 (@writeBytes_chunks_cover_buffer w25x_opcodes idle_chip
                    (test_dev 0) 1 0xF0 (repeat 7 600) 600 [] eq_refl
                    ltac:(lia) ltac:(rewrite repeat_length; simpl; lia)
                    ltac:(apply Forall_forall; intros x Hx;
                          apply repeat_spec in Hx; lia))).
    apply idle_chip_responsive.
  - eexists. split; [vm_compute; reflexivity|]. split; [reflexivity|].
    pose proof (proj2 (@writeBytes_chunks_cover_buffer w25x_opcodes
                         (slow_chip w25x_opcodes) (test_dev 0) 2 0xFFFFFE
                         [1; 2; 3; 4; 5] 5 [] eq_refl ltac:(lia)
                         ltac:(simpl; lia)
                         ltac:(repeat constructor; lia))
                      _ ltac:(vm_compute; reflexivity))
      as (Hlen & Hcons & Hpay & _).
    auto.
Defined.



Lemma initialize_checks_identifier_witness :
  (exists d,
     initialize w25x_opcodes (rom_chip w25x_opcodes 0xEF30 (fun _ => 255))
                (test_dev 0xEF30) 1 []
     = Some (true, d)
     /\ map mosi (status_writes w25x_opcodes d) = [[0x01; 0x00]])
  /\ (exists d,
        initialize w25x_opcodes (rom_chip w25x_opcodes 0x1234 (fun _ => 255))
                   (test_dev 0xEF30) 1 []
        = Some (false, d)
        /\ status_writes w25x_opcodes d = []).
Proof.
  split; eexists; (split; [vm_compute; reflexivity|]).
  - apply (proj2 (@initialize_checks_identifier w25x_opcodes
                    (rom_chip w25x_opcodes 0xEF30 (fun _ => 255))
                    (test_dev 0xEF30) 1 [] eq_refl) true _).
    vm_compute. reflexivity.
  - apply (proj2 (@initialize_checks_identifier w25x_opcodes
                    (rom_chip w25x_opcodes 0x1234 (fun _ => 255))
                    (test_dev 0xEF30) 1 [] eq_refl) false _).
    vm_compute. reflexivity.
Defined.

Lemma found_requires_consistent_identifier_witness :
  exists b d,
    found w25x_opcodes (rom_chip w25x_opcodes 0xEF30 (fun _ => 255))
          (test_dev 0) 0 []
    = Some (b, d)
    /\ let ids := id_reads w25x_opcodes d in
       commands d = 0xAB :: repeat 0x9F (length ids)
       /\ (1 <= length ids <= 10)%nat
       /\ (b = true <-> Forall (valid_id (hd 0 ids)) ids)
       /\ (b = true -> length ids = 10%nat)
       /\ (b = false ->
           exists good bad,
             ids = good ++ [bad]
             /\ Forall (valid_id (hd 0 ids)) good
             /\ ~ valid_id (hd 0 ids) bad).
Proof.
  apply (@found_requires_consistent_identifier w25x_opcodes
           (rom_chip w25x_opcodes 0xEF30 (fun _ => 255)) (test_dev 0) 0 []).
  reflexivity.
Defined.

Lemma regionIsEmpty_iff_all_ff_witness :
  exists d,
    regionIsEmpty w25x_opcodes
      (rom_chip w25x_opcodes 0xEF30 (fun a => if a =? 0x102 then 0 else 255))
      (test_dev 0) 1 0x100 3 []
    = Some (false, d)
    /\ exists pre c,
         d = frames (test_dev 0) (pre ++ [c])
         /\ skipn 5 (miso c) = [255; 255; 0].
Proof.
  eexists. split; [vm_compute; reflexivity|].
  destruct (proj2 (@regionIsEmpty_iff_all_ff w25x_opcodes
                     (rom_chip w25x_opcodes 0xEF30
                        (fun a => if a =? 0x102 then 0 else 255))
                     (test_dev 0) 1 0x100 3 [] eq_refl ltac:(lia))
                  false _ ltac:(vm_compute; reflexivity))
    as (pre & c & E & _).
  exists pre, c. split; [exact E|].
  apply (f_equal cycles) in E. rewrite cycles_frames in E.
  match type of E with
  | cycles ?t = _ =>
      let v := eval vm_compute in (cycles t) in
      change (cycles t) with v in E
  end.
  apply (app_inj_tail [[(5, 0); (0, 0)]] pre) in E.
  destruct E as [_ <-]. reflexivity.
Defined.

Lemma address_sent_most_significant_first_witness :
  (exists d,
     perform w25x_opcodes idle_chip (test_dev 0) 1 (ReadByte 0x012345) []
     = Some (tt, d)
     /\ map mosi (cycles d) = [[0x05; 0]; [0x03; 0x01; 0x23; 0x45; 0]]
     /\ exists pre cyc,
          d = frames (test_dev 0) (pre ++ [cyc])
          /\ mosi cyc = 0x03 :: msb_first 0x012345 ++ [0])
  /\ perform w25x_opcodes idle_chip (test_dev 0) 1
             (WriteBytes 0x0123FE (repeat 7 600) 600) []
     <> None
  /\ exists d,
       perform w25x_opcodes idle_chip (test_dev 0) 1
               (WriteBytes 0x0123FE [1; 2; 3] 3) []
       = Some (tt, d)
       /\ map mosi (filter (has_opcode 0x02) (cycles d))
          = [[0x02; 0x01; 0x23; 0xFE; 1; 2]; [0x02; 0x01; 0x24; 0x00; 3]]
       /\ total_len (chunks w25x_opcodes d) = 3
       /\ exists cyc rest,
            filter (has_opcode 0x02) (cycles d) = cyc :: rest
            /\ firstn 4 (mosi cyc) = 0x02 :: msb_first 0x0123FE.
Proof.
  split; [|split].
  - eexists. split; [vm_compute; reflexivity|]. split; [reflexivity|].
    destruct (proj1 (proj1 (proj2
                (@address_sent_most_significant_first w25x_opcodes idle_chip
                   (test_dev 0) 1 (ReadByte 0x012345) [] eq_refl))
                _ ltac:(vm_compute; reflexivity))
              0x03 0x012345 [0] eq_refl ltac:(lia))
      as (pre & cyc & E & Hc & _).
    exists pre, cyc. auto.
  - apply (proj1 (@address_sent_most_significant_first w25x_opcodes idle_chip
                    (test_dev 0) 1 (WriteBytes 0x0123FE (repeat 7 600) 600)
                    [] eq_refl)).
    apply idle_chip_responsive.
  - eexists. split; [vm_compute; reflexivity|]. split; [reflexivity|].
    destruct (proj2 (proj1 (proj2
                (@address_sent_most_significant_first w25x_opcodes idle_chip
                   (test_dev 0) 1 (WriteBytes 0x0123FE [1; 2; 3] 3) []
                   eq_refl))
                _ ltac:(vm_compute; reflexivity))
              0x0123FE [1; 2; 3] 3 eq_refl ltac:(lia))
      as (_ & _ & Hlen & Hfirst).
    split; [exact Hlen|]. apply Hfirst. lia.
Defined.

Lemma only_wakeup_skips_busy_wait_witness :
  (exists r,
     command w25x_opcodes (slow_chip w25x_opcodes) (test_dev 0) 0 0xAB false []
     = Some (tt, opened (test_dev 0) [(0xAB, r)]))
  /\ command w25x_opcodes (slow_chip w25x_opcodes) (test_dev 0) 1 0xB9 false []
     = None
  /\ exists d,
       command w25x_opcodes (slow_chip w25x_opcodes) (test_dev 0) 2 0xB9 false []
       = Some (tt, d)
       /\ commands d = [0x05; 0x05; 0xB9].
Proof.
  split; [|split; [reflexivity | eexists; split; vm_compute; reflexivity]].
  apply (proj1 (@only_wakeup_skips_busy_wait w25x_opcodes
                  (slow_chip w25x_opcodes) (test_dev 0) 0 0xAB []
                  eq_refl ltac:(lia))).
  reflexivity.
Defined.

Lemma public_operations_release_the_bus_witness :
  exists d,
    perform w25x_opcodes (rom_chip w25x_opcodes 0x1234 (fun _ => 255))
            (test_dev 0xEF30) 1 Initialize []
    = Some (tt, d)
    /\ bus_run released d = Some released.
Proof.
  eexists. split; [vm_compute; reflexivity|].
  apply (@public_operations_release_the_bus w25x_opcodes
           (rom_chip w25x_opcodes 0x1234 (fun _ => 255))
           (test_dev 0xEF30) 1 Initialize []); [reflexivity|].
  vm_compute. reflexivity.
Defined.

(** * Further properties of the driver *)

(** ** Reads *)

Lemma prelude_plain_busy_wait oc pre :
  prelude oc false pre -> busy_wait oc pre.
Proof. intros H. inversion H. assumption. Qed.

Section Reads.

Variable oc : Opcodes.
Variable chip : transcript -> Z -> Z.
Variable dev : SPIFlash.
Hypothesis Hoc : opcodes_ok oc = true.

(** A member function that starts with a gated [command] and then only
    clocks bytes returns exactly when the busy-wait ends. *)
Lemma gated_returns_iff {A} fuel cmd (k : unit -> M A) h :
  u8 cmd <> SPIFLASH_WAKE oc ->
  (forall u, total (k u)) ->
  bind (command oc chip dev fuel cmd false) k h <> None
  <-> gate_opens oc chip dev fuel h.
Proof.
  intros Hcmd Hk. split.
  - intros H. apply (@command_plain_waits oc chip dev fuel cmd h Hcmd).
    intros E. apply H. apply bind_None_l. exact E.
  - intros Hg. apply bind_returns; [|exact Hk].
    apply command_plain_returns. right. exact Hg.
Qed.

Lemma readByte_returns_iff fuel addr h :
  readByte oc chip dev fuel addr h <> None <-> gate_opens oc chip dev fuel h.
Proof.
  unfold readByte. apply gated_returns_iff.
  - replace (u8 (SPIFLASH_ARRAYREADLOWFREQ oc))
      with (SPIFLASH_ARRAYREADLOWFREQ oc) by (symmetry; op_byte).
    op_neq.
  - intros _.
    do 4 (apply total_bind; [apply total_transfer | intros ?]).
    apply total_bind; [apply total_unselect | intros _]. apply total_ret.
Qed.

Lemma readUniqueId_returns_iff fuel h :
  readUniqueId oc chip dev fuel h <> None <-> gate_opens oc chip dev fuel h.
Proof.
  unfold readUniqueId. apply gated_returns_iff.
  - replace (u8 (SPIFLASH_MACREAD oc))
      with (SPIFLASH_MACREAD oc) by (symmetry; op_byte).
    op_neq.
  - intros _.
    do 4 (apply total_bind; [apply total_transfer | intros ?]).
    apply total_bind; [apply total_repeatM, total_transfer | intros ?].
    apply total_bind; [apply total_unselect | intros _]. apply total_ret.
Qed.

Lemma sleep_returns_iff fuel h :
  sleep oc chip dev fuel h <> None <-> gate_opens oc chip dev fuel h.
Proof.
  unfold sleep. apply gated_returns_iff.
  - replace (u8 (SPIFLASH_SLEEP oc))
      with (SPIFLASH_SLEEP oc) by (symmetry; op_byte).
    op_neq.
  - intros _. apply total_unselect.
Qed.

End Reads.

(** X1: [readDeviceId] never waits for the chip.  It always returns, after
    one command cycle of three bytes (the identifier opcode and two
    fillers), the 16-bit value whose high byte is the first byte the chip
    answered and whose low byte is the second. *)
Theorem readDeviceId_high_byte_first oc chip dev h :
  opcodes_ok oc = true ->
  exists id r hi lo,
    readDeviceId oc chip dev h
    = Some (id, frame dev [(SPIFLASH_IDREAD oc, r); (0, hi); (0, lo)])
    /\ 0 <= id < 65536
    /\ 0 <= hi < 256 /\ 0 <= lo < 256
    /\ id / 256 = hi /\ id mod 256 = lo.
Proof.
  intros Hoc.
  destruct (readDeviceId oc chip dev h) as [[id d]|] eqn:E.
  2:{ exfalso. revert E. apply total_readDeviceId. }
  destruct (@readDeviceId_Some oc chip dev Hoc h id d E)
    as (r & hi & lo & -> & -> & Hhi & Hlo).
  rewrite jedec_value by assumption.
  exists (hi * 256 + lo), r, hi, lo. repeat split; try lia.
  - symmetry. apply Z.div_unique with (r := lo); lia.
  - symmetry. apply Z.mod_unique with (q := hi); lia.
Qed.

(** X2: [readByte] returns exactly when the busy-wait before it ends.  Its
    command cycle is the low-frequency read opcode, the three address
    bytes and one filler, with no dummy byte in between; the result is
    the byte the chip answered to the filler. *)
Theorem readByte_returns_the_fifth_answer oc chip dev fuel addr h :
  opcodes_ok oc = true ->
  (readByte oc chip dev fuel addr h <> None
   <-> gate_opens oc chip dev fuel h)
  /\ forall result d,
       readByte oc chip dev fuel addr h = Some (result, d) ->
       0 <= result < 256
       /\ exists g c,
            d = frames dev (g ++ [c]) /\ busy_wait oc g
            /\ mosi c = SPIFLASH_ARRAYREADLOWFREQ oc :: addr_bytes addr ++ [0]
            /\ exists answers, miso c = answers ++ [result]
                               /\ length answers = 4%nat.
Proof.
  intros Hoc. split; [apply readByte_returns_iff; exact Hoc|].
  intros result d H. split; [apply (@readByte_byte oc chip dev fuel addr h result d H)|].
  destruct (@readByte_Some oc chip dev Hoc fuel addr h result d H)
    as (pre & c & -> & Hpre & Hmosi & Hmiso).
  exists pre, c. split; [reflexivity|].
  split; [apply prelude_plain_busy_wait; exact Hpre|].
  split; [exact Hmosi|].
  exists (firstn 4 (miso c)). rewrite <- Hmiso, firstn_skipn.
  split; [reflexivity|].
  assert (Hl : length (mosi c) = 5%nat) by (rewrite Hmosi; reflexivity).
  unfold mosi in Hl. rewrite length_map in Hl.
  rewrite length_firstn. unfold miso. rewrite length_map. lia.
Qed.

(** X3: [readBytes] returns exactly when the busy-wait before it ends.  Its
    one command cycle is the fast-read opcode, the three address bytes,
    one dummy byte and one filler per byte asked for; it returns [len]
    bytes, the chip's answers to those fillers in order.  Asked for no
    byte, it still sends the five command bytes. *)
Theorem readBytes_returns_the_answers oc chip dev fuel addr len h :
  opcodes_ok oc = true ->
  (readBytes oc chip dev fuel addr len h <> None
   <-> gate_opens oc chip dev fuel h)
  /\ forall buf d,
       readBytes oc chip dev fuel addr len h = Some (buf, d) ->
       length buf = Z.to_nat len
       /\ Forall (fun b => 0 <= b < 256) buf
       /\ exists g c answers,
            d = frames dev (g ++ [c]) /\ busy_wait oc g
            /\ mosi c = SPIFLASH_ARRAYREAD oc :: addr_bytes addr
                          ++ 0 :: repeat 0 (Z.to_nat len)
            /\ miso c = answers ++ buf /\ length answers = 5%nat.
Proof.
  intros Hoc. split; [apply readBytes_returns_iff; exact Hoc|].
  intros buf d H.
  destruct (@readBytes_Some oc chip dev Hoc fuel addr len h buf d H)
    as (pre & c & -> & Hpre & Hmosi & Hmiso & Hlen & Hbytes).
  split; [exact Hlen|]. split; [exact Hbytes|].
  exists pre, c, (firstn 5 (miso c)). split; [reflexivity|].
  split; [apply prelude_plain_busy_wait; exact Hpre|].
  split; [rewrite Hmosi, map_const_repeat, Hlen; reflexivity|].
  split; [rewrite <- Hmiso; symmetry; apply firstn_skipn|].
  assert (Hl : (5 <= length (mosi c))%nat).
  { rewrite Hmosi. simpl. lia. }
  unfold mosi in Hl. rewrite length_map in Hl.
  rewrite length_firstn. unfold miso. rewrite length_map. lia.
Qed.

(** X4: [readUniqueId] returns exactly when the busy-wait before it ends.
    Its one command cycle is the unique-identifier opcode and twelve
    fillers; the eight bytes it stores and returns are the chip's answers
    to the last eight of them. *)
Theorem readUniqueId_returns_eight_bytes oc chip dev fuel h :
  opcodes_ok oc = true ->
  (readUniqueId oc chip dev fuel h <> None
   <-> gate_opens oc chip dev fuel h)
  /\ forall id d,
       readUniqueId oc chip dev fuel h = Some (id, d) ->
       length id = 8%nat
       /\ Forall (fun b => 0 <= b < 256) id
       /\ exists g c answers,
            d = frames dev (g ++ [c]) /\ busy_wait oc g
            /\ mosi c = SPIFLASH_MACREAD oc :: repeat 0 12
            /\ miso c = answers ++ id /\ length answers = 5%nat.
Proof.
  intros Hoc. split; [apply readUniqueId_returns_iff; exact Hoc|].
  intros id d H.
  pose proof (@readUniqueId_bytes oc chip dev fuel h id d H) as Hbytes.
  destruct (@readUniqueId_Some oc chip dev Hoc fuel h id d H)
    as (pre & c & -> & Hpre & Hmosi & Hmiso & Hlen).
  split; [exact Hlen|]. split; [exact Hbytes|].
  exists pre, c, (firstn 5 (miso c)). split; [reflexivity|].
  split; [apply prelude_plain_busy_wait; exact Hpre|].
  split; [exact Hmosi|].
  split; [rewrite <- Hmiso; symmetry; apply firstn_skipn|].
  assert (Hl : length (mosi c) = 13%nat) by (rewrite Hmosi; reflexivity).
  unfold mosi in Hl. rewrite length_map in Hl.
  rewrite length_firstn. unfold miso. rewrite length_map. lia.
Qed.

(** ** Power state, and what [command] leaves behind *)

Lemma bus_run_opened dev c :
  bus_run released (opened dev c) = Some acquired.
Proof.
  unfold opened. cbn [app bus_run bus_step in_transaction chip_selected
                      released negb].
  apply bus_run_exchanges.
Qed.

Lemma bus_run_closing dev :
  bus_run acquired (closing dev) = Some released.
Proof. reflexivity. Qed.

Lemma command_send_bus oc chip dev fuel cmd h u d :
  opcodes_ok oc = true ->
  command_send oc chip dev fuel cmd h = Some (u, d) ->
  bus_run released d = Some acquired.
Proof.
  intros Hoc H.
  destruct (@command_send_Some oc chip dev Hoc fuel cmd h u d H)
    as (g & r & -> & _ & _).
  rewrite bus_run_app, bus_run_frames. apply bus_run_opened.
Qed.

Lemma wakeup_fuel oc chip dev fuel fuel' h :
  opcodes_ok oc = true ->
  wakeup oc chip dev fuel h = wakeup oc chip dev fuel' h.
Proof.
  intros Hoc. unfold wakeup, command, command_send.
  replace (u8 (SPIFLASH_WAKE oc)) with (SPIFLASH_WAKE oc)
    by (symmetry; op_byte).
  rewrite Z.eqb_refl. reflexivity.
Qed.

(** X5: [wakeup] never waits: for every chip, busy or not, it returns
    after one command cycle that holds the wake opcode alone.  [sleep]
    waits like every other command: it returns exactly when the busy-wait
    ends, and then the last cycle holds the sleep opcode alone. *)
Theorem wakeup_never_waits_sleep_does oc chip dev fuel h :
  opcodes_ok oc = true ->
  (exists r, wakeup oc chip dev fuel h
             = Some (tt, frame dev [(SPIFLASH_WAKE oc, r)]))
  /\ (sleep oc chip dev fuel h <> None <-> gate_opens oc chip dev fuel h)
  /\ forall d,
       sleep oc chip dev fuel h = Some (tt, d) ->
       exists g r,
         d = frames dev (g ++ [[(SPIFLASH_SLEEP oc, r)]]) /\ busy_wait oc g.
Proof.
  intros Hoc. split; [|split].
  - destruct (wakeup oc chip dev fuel h) as [[[] d]|] eqn:E.
    + destruct (@wakeup_Some oc chip dev Hoc fuel h tt d E) as (r & ->).
      exists r. reflexivity.
    + exfalso. revert E. apply total_wakeup. exact Hoc.
  - apply sleep_returns_iff. exact Hoc.
  - intros d H.
    destruct (@sleep_Some oc chip dev Hoc fuel h tt d H)
      as (pre & c & -> & Hpre & Hmosi).
    destruct c as [|[out r] [|? ?]]; try discriminate.
    injection Hmosi as ->.
    exists pre, r. split; [reflexivity|].
    apply prelude_plain_busy_wait. exact Hpre.
Qed.

(** X6: [command] is the one member function that returns with the bus
    held: after it the transaction is open and the chip selected, whether
    or not a write-enable cycle came first, and the [unselect] its callers
    add releases both. *)
Theorem command_returns_with_chip_selected oc chip dev fuel cmd isWrite h d :
  opcodes_ok oc = true ->
  command oc chip dev fuel cmd isWrite h = Some (tt, d) ->
  bus_run released d = Some acquired
  /\ bus_run released (d ++ closing dev) = Some released.
Proof.
  intros Hoc H.
  assert (Hd : bus_run released d = Some acquired).
  { unfold command in H.
    apply bind_Some in H. destruct H as (u1 & d1 & d2 & Hpre & Hsend & ->).
    apply (command_send_bus _ _ _ _ _ _ Hoc) in Hsend.
    rewrite bus_run_app.
    destruct isWrite.
    - apply bind_Some in Hpre.
      destruct Hpre as (u2 & d3 & d4 & Hwe & Hun & ->).
      apply (command_send_bus _ _ _ _ _ _ Hoc) in Hwe.
      rewrite unselect_run in Hun. injection Hun as _ <-.
      rewrite bus_run_app, Hwe, bus_run_closing. exact Hsend.
    - injection Hpre as _ <-. exact Hsend. }
  split; [exact Hd|].
  rewrite bus_run_app, Hd. apply bus_run_closing.
Qed.

(** ** A chip that never reports ready *)

Section Stuck.

Variable oc : Opcodes.
Variable chip : transcript -> Z -> Z.
Variable dev : SPIFlash.
Hypothesis Hoc : opcodes_ok oc = true.
Hypothesis Hbusy : always_busy chip.

Lemma busy_stuck h : exists d, busy oc chip dev h = Some (true, d).
Proof.
  eexists. cbv [busy readStatus bind select unselect emit ret transfer].
  match goal with
  | |- context [Z.land ?s 1 =? 0] =>
      destruct (Z.eqb_spec (Z.land s 1) 0) as [E | E]
  end.
  - exfalso. exact (Hbusy _ _ E).
  - reflexivity.
Qed.

Lemma while_busy_stuck fuel : forall h, while_busy oc chip dev fuel h = None.
Proof.
  induction fuel as [|fuel IH]; intros h; simpl.
  - reflexivity.
  - destruct (busy_stuck h) as (d & E). unfold bind. rewrite E. rewrite IH.
    reflexivity.
Qed.

Lemma command_send_stuck fuel cmd h :
  u8 cmd <> SPIFLASH_WAKE oc -> command_send oc chip dev fuel cmd h = None.
Proof.
  intros Hcmd. unfold command_send. apply Z.eqb_neq in Hcmd. rewrite Hcmd.
  apply bind_None_l. apply while_busy_stuck.
Qed.

Lemma command_stuck fuel cmd isWrite h :
  u8 cmd <> SPIFLASH_WAKE oc ->
  command oc chip dev fuel cmd isWrite h = None.
Proof.
  intros Hcmd. unfold command. destruct isWrite.
  - apply bind_None_l, bind_None_l, command_send_stuck.
    replace (u8 (SPIFLASH_WRITEENABLE oc)) with (SPIFLASH_WRITEENABLE oc)
      by (symmetry; op_byte).
    op_neq.
  - unfold bind at 1. cbn [ret]. rewrite command_send_stuck by exact Hcmd.
    reflexivity.
Qed.

End Stuck.

(** X7: the hang the comment in [command] warns of.  On a chip whose
    status always reads busy (a missing chip with the data line pulled
    high answers [0xff]), every operation that goes through a gated
    [command] never returns, however long it polls; the operations that do
    not wait still return; and [initialize] can only return failure, after
    an identifier mismatch. *)
Theorem busy_chip_hangs_gated_operations oc chip dev fuel c h :
  opcodes_ok oc = true ->
  always_busy chip ->
  (waits c = true -> perform oc chip dev fuel c h = None)
  /\ (never_waits c = true -> perform oc chip dev fuel c h <> None)
  /\ (forall b d, initialize oc chip dev fuel h = Some (b, d) ->
                  b = false /\ _jedecID dev <> 0).
Proof.
  intros Hoc Hbusy.
  assert (Hstuck : forall cmd isWrite h',
    In cmd (opcode_list oc) -> cmd <> SPIFLASH_WAKE oc ->
    command oc chip dev fuel cmd isWrite h' = None).
  { intros cmd isWrite h' Hin Hne.
    apply (@command_stuck oc chip dev Hoc Hbusy).
    rewrite (@opcodes_ok_byte oc cmd Hoc Hin). exact Hne. }
  split; [|split].
  - intros Hw. destruct c; try discriminate Hw; cbn [perform];
      unfold readUniqueId, readByte, regionIsEmpty, readBytes, writeByte,
        chipErase, blockErase4K, blockErase32K, blockErase64K, sleep;
      repeat (match goal with
              | |- bind _ _ _ = None => apply bind_None_l
              end);
      try (apply Hstuck; [simpl; tauto | op_neq]).
    (* writeBytes with a positive length *)
    cbn [waits] in Hw. apply Z.ltb_lt in Hw.
    unfold writeBytes. destruct (Z.to_nat len) as [|iter] eqn:Hiter; [lia|].
    cbn [writeBytes_loop]. apply Z.ltb_lt in Hw. rewrite Hw.
    apply bind_None_l. apply Hstuck; [simpl; tauto | op_neq].
  - intros Hn. destruct c; try discriminate Hn; cbn [perform].
    + apply bind_returns; [apply total_readDeviceId | intros ?; apply total_ret].
    + apply bind_returns;
        [apply total_readStatus; exact Hoc | intros ?; apply total_ret].
    + apply bind_returns;
        [apply total_busy; exact Hoc | intros ?; apply total_ret].
    + cbn [never_waits] in Hn. apply negb_true_iff, Z.ltb_ge in Hn.
      unfold writeBytes. replace (Z.to_nat len) with 0%nat by lia.
      cbn [writeBytes_loop].
      replace (0 <? len) with false by (symmetry; apply Z.ltb_ge; exact Hn).
      discriminate.
    + apply bind_returns;
        [apply total_found; exact Hoc | intros ?; apply total_ret].
    + apply total_wakeup; exact Hoc.
    + discriminate.
  - intros b d H. unfold initialize in H.
    do 4 (apply bind_Some in H;
          destruct H as (? & ? & ? & _ & H & _)).
    destruct (_jedecID dev =? 0) eqn:Hj.
    + apply bind_Some in H. destruct H as (m & d1 & d2 & Hm & H & _).
      injection Hm as <- <-.
      apply bind_Some in H. destruct H as (? & ? & ? & H & _).
      rewrite Hstuck in H by (simpl; tauto || op_neq). discriminate.
    + apply Z.eqb_neq in Hj. split; [|exact Hj].
      apply bind_Some in H. destruct H as (m & d1 & d2 & _ & H & _).
      destruct m.
      * apply bind_Some in H. destruct H as (? & ? & ? & H & _).
        rewrite Hstuck in H by (simpl; tauto || op_neq). discriminate.
      * injection H as <- _. reflexivity.
Qed.

(** X8: every run of [initialize] begins by making the chip-select pin
    an output, starting the bus and deselecting the chip, and then wakes
    the chip without polling it.  A run that reports failure goes on with
    one identifier read whose value differs from the expected one and
    nothing else; it never waits, so it is the same whatever the bound on
    polling. *)
Theorem initialize_failure_does_not_wait oc chip dev fuel h b d :
  opcodes_ok oc = true ->
  initialize oc chip dev fuel h = Some (b, d) ->
  exists rw rest,
    d = [PinModeOutput (_slaveSelectPin dev); SpiBegin;
         DigitalWrite (_slaveSelectPin dev) true; EndTransaction]
        ++ frame dev [(SPIFLASH_WAKE oc, rw)] ++ rest
    /\ (b = false ->
        (exists r hi lo,
           rest = frame dev [(SPIFLASH_IDREAD oc, r); (0, hi); (0, lo)]
           /\ hi * 256 + lo <> _jedecID dev)
        /\ _jedecID dev <> 0
        /\ forall fuel', initialize oc chip dev fuel' h = Some (false, d)).
Proof.
  intros Hoc H.
  destruct (@initialize_Some oc chip dev Hoc fuel h b d H)
    as (rw & ids & tail & Hd & Hids & Htail).
  exists rw, (frames dev (ids ++ tail)). split.
  - rewrite Hd.
    change (frames dev ([(SPIFLASH_WAKE oc, rw)] :: ids ++ tail))
      with (frame dev [(SPIFLASH_WAKE oc, rw)] ++ frames dev (ids ++ tail)).
    reflexivity.
  - intros ->. subst tail. rewrite app_nil_r.
    destruct (Z.eqb_spec (_jedecID dev) 0) as [E | Hne].
    { destruct Hids as [_ Hb]. discriminate Hb. }
    destruct Hids as (id & c & -> & (r & hi & lo & -> & _ & _ & ->) & Hb).
    split; [|split; [exact Hne|]].
    + exists r, hi, lo. rewrite frames_one. split; [reflexivity|].
      symmetry in Hb. apply Z.eqb_neq in Hb. exact Hb.
    + intros fuel'. clear Hd Hb. unfold initialize in H.
      apply bind_Some in H. destruct H as (u1 & d1 & r1 & H1 & H & ->).
      apply bind_Some in H. destruct H as (u2 & d2 & r2 & H2 & H & ->).
      apply bind_Some in H. destruct H as (u3 & d3 & r3 & H3 & H & ->).
      apply bind_Some in H. destruct H as (u4 & d4 & r4 & H4 & H & ->).
      apply bind_Some in H. destruct H as (m & d5 & r5 & H5 & H & ->).
      destruct m.
      * do 3 (apply bind_Some in H; destruct H as (? & ? & ? & _ & H & _)).
        discriminate H.
      * injection H as <-. unfold initialize.
        eapply bind_run; [exact H1|]. eapply bind_run; [exact H2|].
        eapply bind_run; [exact H3|].
        eapply bind_run;
          [rewrite (@wakeup_fuel oc chip dev fuel' fuel _ Hoc); exact H4|].
        eapply bind_run; [exact H5 | reflexivity].
Qed.

(** ** Writes compose *)

Lemma bind_ext {A B} (m : M A) (f g : A -> M B) h :
  (forall a h', f a h' = g a h') -> bind m f h = bind m g h.
Proof.
  intros E. unfold bind. destruct (m h) as [[a d1]|]; [|reflexivity].
  rewrite E. reflexivity.
Qed.

Lemma bind_ret_l {A B} (a : A) (f : A -> M B) h :
  bind (ret a) f h = f a h.
Proof.
  unfold bind, ret. rewrite app_nil_r.
  destruct (f a h) as [[b d]|]; reflexivity.
Qed.

Lemma bind_assoc {A B C} (m : M A) (f : A -> M B) (g : B -> M C) h :
  bind (bind m f) g h = bind m (fun a => bind (f a) g) h.
Proof.
  unfold bind. destruct (m h) as [[a d1]|]; [|reflexivity].
  destruct (f a (h ++ d1)) as [[b d2]|]; [|reflexivity].
  rewrite <- app_assoc.
  destruct (g b (h ++ d1 ++ d2)) as [[c d3]|]; [|reflexivity].
  rewrite <- app_assoc. reflexivity.
Qed.

Lemma transfer_congr chip x y :
  u8 x = u8 y -> transfer chip x = transfer chip y.
Proof. intros E. unfold transfer. rewrite E. reflexivity. Qed.

(** X9: writing one byte with [writeBytes] is [writeByte]: the same
    events on the bus and the same outcome, whatever the chip does. *)
Theorem writeBytes_of_one_byte_is_writeByte oc chip dev fuel addr byt buf h :
  writeBytes oc chip dev fuel addr (byt :: buf) 1 h
  = writeByte oc chip dev fuel addr byt h.
Proof.
  unfold writeBytes, writeByte.
  change (Z.to_nat 1) with 1%nat. cbn [writeBytes_loop].
  change (0 <? 1) with true. cbv iota.
  pose proof (page_room addr) as Hroom.
  replace (u16 (256 - addr mod 256)) with (256 - addr mod 256)
    by (symmetry; apply Z.mod_small; lia).
  replace (1 <=? 256 - addr mod 256) with true
    by (symmetry; apply Z.leb_le; lia).
  change (u16 (1 - 1)) with 0. change (0 <? 0) with false. cbv iota.
  change (buf_slice (byt :: buf) 0 1) with [byt]. cbn [forM_].
  do 4 (apply bind_ext; intros ? ?).
  rewrite bind_assoc. apply bind_ext. intros _ h2.
  rewrite bind_ret_l.
  unfold bind. destruct (unselect dev h2) as [[[] d]|]; [|reflexivity].
  cbn [ret]. rewrite app_nil_r. reflexivity.
Qed.

Lemma addr_transfers_congr addr addr' :
  addr mod 16777216 = addr' mod 16777216 ->
  u8 (Z.shiftr addr 16) = u8 (Z.shiftr addr' 16)
  /\ u8 (Z.shiftr addr 8) = u8 (Z.shiftr addr' 8)
  /\ u8 addr = u8 addr'.
Proof.
  intros E.
  pose proof (addr_bytes_mosi addr) as H1.
  pose proof (addr_bytes_mosi addr') as H2.
  rewrite addr_bytes_msb_first, E, <- addr_bytes_msb_first, <- H2 in H1.
  injection H1 as -> -> ->. auto.
Qed.

Lemma mod_256_of_mod_24 addr addr' :
  addr mod 16777216 = addr' mod 16777216 -> addr mod 256 = addr' mod 256.
Proof.
  intros E.
  rewrite <- (Z.mod_mod_divide addr 16777216 256) by (exists 65536; reflexivity).
  rewrite <- (Z.mod_mod_divide addr' 16777216 256) by (exists 65536; reflexivity).
  rewrite E. reflexivity.
Qed.

Lemma u32_add_congr addr addr' n :
  addr mod 16777216 = addr' mod 16777216 ->
  u32 (addr + n) mod 16777216 = u32 (addr' + n) mod 16777216.
Proof.
  intros E. rewrite !u32_mod_24.
  rewrite (Z.add_mod addr), (Z.add_mod addr'), E by lia. reflexivity.
Qed.

Lemma writeBytes_loop_addr_congr oc chip dev fuel buf iter :
  forall addr addr' offset len maxBytes h,
    addr mod 16777216 = addr' mod 16777216 ->
    writeBytes_loop oc chip dev iter fuel buf addr offset len maxBytes h
    = writeBytes_loop oc chip dev iter fuel buf addr' offset len maxBytes h.
Proof.
  induction iter as [|iter IH]; intros addr addr' offset len maxBytes h E.
  - reflexivity.
  - cbn [writeBytes_loop]. destruct (0 <? len); [|reflexivity].
    destruct (addr_transfers_congr _ _ E) as (E2 & E1 & E0).
    rewrite (transfer_congr chip _ _ E2), (transfer_congr chip _ _ E1),
      (transfer_congr chip _ _ E0).
    do 6 (apply bind_ext; intros ? ?).
    apply IH. apply u32_add_congr. exact E.
Qed.

(** X10: addresses are 24 bits wide on the bus.  Two addresses that
    agree modulo [2^24] give the same run of every addressed operation:
    the reads, the byte and buffer writes and the three block erases. *)
Theorem address_bits_above_23_are_ignored oc chip dev fuel addr addr' h :
  addr mod 16777216 = addr' mod 16777216 ->
  readByte oc chip dev fuel addr h = readByte oc chip dev fuel addr' h
  /\ (forall len,
        readBytes oc chip dev fuel addr len h
        = readBytes oc chip dev fuel addr' len h)
  /\ (forall byt,
        writeByte oc chip dev fuel addr byt h
        = writeByte oc chip dev fuel addr' byt h)
  /\ (forall buf len,
        writeBytes oc chip dev fuel addr buf len h
        = writeBytes oc chip dev fuel addr' buf len h)
  /\ blockErase4K oc chip dev fuel addr h
     = blockErase4K oc chip dev fuel addr' h
  /\ blockErase32K oc chip dev fuel addr h
     = blockErase32K oc chip dev fuel addr' h
  /\ blockErase64K oc chip dev fuel addr h
     = blockErase64K oc chip dev fuel addr' h.
Proof.
  intros E. destruct (addr_transfers_congr _ _ E) as (E2 & E1 & E0).
  pose proof (transfer_congr chip _ _ E2) as T2.
  pose proof (transfer_congr chip _ _ E1) as T1.
  pose proof (transfer_congr chip _ _ E0) as T0.
  unfold readByte, readBytes, writeByte, blockErase4K, blockErase32K,
    blockErase64K.
  rewrite T2, T1, T0. repeat split.
  intros buf len. unfold writeBytes.
  rewrite (mod_256_of_mod_24 _ _ E). apply writeBytes_loop_addr_congr. exact E.
Qed.

Lemma planned_nil buf addr offset ks :
  planned buf addr offset 0 ks -> ks = [].
Proof. inversion 1; [reflexivity | lia]. Qed.

Lemma pages_touched a n :
  (a + n - 1) / 256 - a / 256 = (a mod 256 + n - 1) / 256.
Proof.
  pose proof (Z.div_mod a 256 ltac:(lia)) as Ha.
  replace (a + n - 1) with (a / 256 * 256 + (a mod 256 + n - 1)) by lia.
  rewrite Z.div_add_l by lia. lia.
Qed.

Lemma planned_count buf addr offset len ks :
  planned buf addr offset len ks ->
  0 < len ->
  Z.of_nat (length ks) = (addr + len - 1) / 256 - addr / 256 + 1.
Proof.
  induction 1 as [|addr offset len n ks Hlen Hn Hrest IH]; intros Hpos.
  - lia.
  - rewrite pages_touched. pose proof (page_room addr) as Hroom.
    cbn [length]. rewrite Nat2Z.inj_succ.
    destruct (Z.eq_dec (len - n) 0) as [E0 | Hmore].
    + rewrite E0 in Hrest. apply planned_nil in Hrest. subst ks.
      cbn [length]. rewrite Z.div_small by lia. reflexivity.
    + pose proof (planned_len_nonneg Hrest).
      assert (Hrem : 0 < len - n) by lia.
      rewrite (IH Hrem), pages_touched.
      rewrite (@next_page_aligned addr len n Hn Hrem).
      assert (n = 256 - addr mod 256) by lia.
      replace (addr mod 256 + len - 1) with (1 * 256 + (0 + (len - n) - 1))
        by lia.
      rewrite Z.div_add_l by lia. lia.
Qed.

Lemma planned_full_pages buf addr offset len ks :
  planned buf addr offset len ks ->
  Forall (fun k => (chunk_start k + chunk_len k) mod 256 = 0)
         (removelast ks).
Proof.
  induction 1 as [|addr offset len n ks Hlen Hn Hrest IH].
  - constructor.
  - destruct ks as [|k ks]; [constructor|].
    change (removelast (?x :: k :: ks)) with (x :: removelast (k :: ks)).
    constructor; [|exact IH].
    pose proof (page_room addr) as Hroom.
    assert (Hrem : 0 < len - n).
    { inversion Hrest. lia. }
    assert (En : n = 256 - addr mod 256) by lia.
    unfold chunk_start. cbn [fst]. rewrite chunk_len_slice by lia.
    rewrite Z.add_mod, Z.mod_mod_divide by (lia || (exists 65536; reflexivity)).
    rewrite <- Z.add_mod by lia.
    replace (addr + n) with ((addr / 256 + 1) * 256)
      by (pose proof (Z.div_mod addr 256 ltac:(lia)); lia).
    apply Z.mod_mul. lia.
Qed.

Lemma Forall_removelast {A} (P : A -> Prop) l :
  Forall P l -> Forall P (removelast l).
Proof.
  induction 1 as [|x l Hx Hl IH]; [constructor|].
  destruct l; [constructor|]. 
  change (removelast (x :: a :: l)) with (x :: removelast (a :: l)).
  constructor; assumption.
Qed.

Lemma whole_pages (l : list (Z * list Z)) :
  Forall page_aligned l ->
  Forall (fun k => (chunk_start k + chunk_len k) mod 256 = 0) l ->
  Forall (fun k => chunk_start k mod 256 = 0 /\ chunk_len k = 256) l.
Proof.
  induction l as [|x l IHl]; intros Hal Hends; [constructor|].
  inversion Hal as [|? ? [Hs Hl] Hal']; subst.
  inversion Hends as [|? ? He Hends']; subst.
  constructor; [|apply IHl; assumption].
  split; [exact Hs|].
  rewrite Z.add_mod, Hs, Z.add_0_l, Z.mod_mod in He by lia.
  destruct (Z.eq_dec (chunk_len x) 256) as [E | Hne]; [exact E|].
  rewrite Z.mod_small in He by lia. lia.
Qed.

(** X11: on a responsive chip [writeBytes] returns, and then it has
    programmed each page it touches once: the number of page-program
    cycles is the number of 256-byte pages between the first and the last
    byte written.  Every chunk but the last ends on a page boundary, so
    every chunk between the first and the last is a whole page. *)
Theorem writeBytes_one_chunk_per_page oc chip dev fuel a buf n h :
  opcodes_ok oc = true ->
  0 < n < 65536 ->
  (responsive oc chip dev fuel ->
   writeBytes oc chip dev fuel a buf n h <> None)
  /\ forall d,
       writeBytes oc chip dev fuel a buf n h = Some (tt, d) ->
       Z.of_nat (length (chunks oc d)) = (a + n - 1) / 256 - a / 256 + 1
       /\ length (filter (has_opcode (SPIFLASH_BYTEPAGEPROGRAM oc))
                         (cycles d))
          = length (chunks oc d)
       /\ Forall (fun k => (chunk_start k + chunk_len k) mod 256 = 0)
                 (removelast (chunks oc d))
       /\ Forall (fun k => chunk_start k mod 256 = 0 /\ chunk_len k = 256)
                 (middle (chunks oc d)).
Proof.
  intros Hoc Hn. split.
  { intros Hresp. apply total_writeBytes; assumption. }
  intros d H.
  apply (@writeBytes_Some oc chip dev Hoc) in H; [|lia].
  destruct H as (cs & -> & Hprog). unfold chunks. rewrite cycles_frames.
  pose proof (f_equal (@length _) (programmed_program_cycles Hoc Hprog))
    as Hcyc.
  rewrite !length_map in Hcyc.
  apply programmed_planned in Hprog.
  set (ks := keep_some (map (chunk_of oc) cs)) in *.
  pose proof (planned_full_pages Hprog) as Hfull.
  split; [apply (planned_count Hprog); lia|]. split; [exact Hcyc|].
  split; [exact Hfull|].
  pose proof (planned_first Hprog) as Hfirst.
  destruct ks as [|k ks]; [constructor|].
  destruct Hfirst as (_ & _ & Hal). unfold middle. cbn [tl].
  destruct ks as [|k' ks]; [constructor|].
  change (removelast (k :: k' :: ks)) with (k :: removelast (k' :: ks))
    in Hfull.
  inversion Hfull as [|? ? _ Hends]; subst.
  apply Forall_removelast in Hal.
  apply whole_pages; assumption.
Qed.

Lemma chunk_size_bounds (len maxBytes : Z) :
  0 < len -> 1 <= maxBytes ->
  1 <= (if len <=? maxBytes then len else maxBytes) <= len.
Proof. intros Hlen Hmax. destruct (Z.leb_spec len maxBytes); lia. Qed.

(** The loop needs at most one iteration per byte; more make no
    difference. *)
Lemma writeBytes_loop_iter oc chip dev fuel buf iter :
  forall iter' addr offset len maxBytes h,
    len < 65536 -> 1 <= maxBytes ->
    (Z.to_nat len <= iter)%nat -> (Z.to_nat len <= iter')%nat ->
    writeBytes_loop oc chip dev iter fuel buf addr offset len maxBytes h
    = writeBytes_loop oc chip dev iter' fuel buf addr offset len maxBytes h.
Proof.
  induction iter as [|iter IH];
    intros iter' addr offset len maxBytes h Hlen Hmax Hi Hi'.
  - cbn [writeBytes_loop].
    replace (0 <? len) with false by (symmetry; apply Z.ltb_ge; lia).
    destruct iter'; cbn [writeBytes_loop];
      replace (0 <? len) with false by (symmetry; apply Z.ltb_ge; lia);
      reflexivity.
  - cbn [writeBytes_loop]. destruct (Z.ltb_spec 0 len) as [Hpos | Hle].
    + destruct iter' as [|iter']; [lia|]. cbn [writeBytes_loop].
      replace (0 <? len) with true by (symmetry; apply Z.ltb_lt; exact Hpos).
      pose proof (chunk_size_bounds Hpos Hmax) as Hn.
      do 6 (apply bind_ext; intros ? ?).
      set (n := if len <=? maxBytes then len else maxBytes) in *.
      assert (E : u16 (len - n) = len - n)
        by (unfold u16; apply Z.mod_small; lia).
      apply IH; rewrite ?E; lia.
    + destruct iter'; cbn [writeBytes_loop];
        replace (0 <? len) with false by (symmetry; apply Z.ltb_ge; lia);
        reflexivity.
Qed.

Lemma buf_slice_skipn buf k offset n :
  0 <= k -> 0 <= offset ->
  buf_slice (skipn (Z.to_nat k) buf) offset n = buf_slice buf (offset + k) n.
Proof.
  intros Hk Hoff. unfold buf_slice. apply map_ext. intros i.
  rewrite nth_skipn. f_equal. lia.
Qed.

(** Writing from the tail of a buffer is writing from an offset into it. *)
Lemma writeBytes_loop_skipn oc chip dev fuel buf k iter :
  forall addr offset len maxBytes h,
    0 <= k -> 0 <= offset -> offset + k + len < 65536 -> 1 <= maxBytes ->
    writeBytes_loop oc chip dev iter fuel (skipn (Z.to_nat k) buf)
                    addr offset len maxBytes h
    = writeBytes_loop oc chip dev iter fuel buf
                      addr (offset + k) len maxBytes h.
Proof.
  induction iter as [|iter IH];
    intros addr offset len maxBytes h Hk Hoff Hsum Hmax.
  - reflexivity.
  - cbn [writeBytes_loop]. destruct (Z.ltb_spec 0 len) as [Hpos | Hle];
      [|reflexivity].
    pose proof (chunk_size_bounds Hpos Hmax) as Hn.
    set (n := if len <=? maxBytes then len else maxBytes) in *.
    rewrite buf_slice_skipn by lia.
    do 6 (apply bind_ext; intros ? ?).
    assert (El : u16 (len - n) = len - n)
      by (unfold u16; apply Z.mod_small; lia).
    assert (Eo : u16 (offset + n) = offset + n)
      by (unfold u16; apply Z.mod_small; lia).
    assert (Eo' : u16 (offset + k + n) = offset + n + k)
      by (unfold u16; rewrite Z.mod_small; lia).
    rewrite El, Eo, Eo'. apply IH; lia.
Qed.

Lemma page_end_room addr len :
  0 < len -> (addr + len) mod 256 = 0 -> 256 - addr mod 256 <= len.
Proof.
  intros Hlen E.
  pose proof (Z.div_mod (addr + len) 256 ltac:(lia)) as H1.
  pose proof (Z.div_mod addr 256 ltac:(lia)) as H0.
  pose proof (Z.mod_pos_bound addr 256 ltac:(lia)).
  rewrite E in H1. lia.
Qed.

Lemma u32_add_u32 x y : u32 (u32 x + y) = u32 (x + y).
Proof. unfold u32. apply Z.add_mod_idemp_l. lia. Qed.

Lemma writeBytes_loop_split_zero oc chip dev fuel buf iter iter1 iter2 :
  forall addr offset len2 h,
    addr mod 256 = 0 -> len2 < 65536 ->
    (Z.to_nat len2 <= iter)%nat -> (Z.to_nat len2 <= iter2)%nat ->
    writeBytes_loop oc chip dev iter fuel buf addr offset len2
                    (256 - addr mod 256) h
    = bind (writeBytes_loop oc chip dev iter1 fuel buf addr offset 0
                            (256 - addr mod 256))
           (fun _ => writeBytes_loop oc chip dev iter2 fuel buf
                       (u32 addr) offset len2 256) h.
Proof.
  intros addr offset len2 h Hal Hlen Hi Hi2.
  replace (writeBytes_loop oc chip dev iter1 fuel buf addr offset 0
                           (256 - addr mod 256))
    with (@ret unit tt) by (destruct iter1; reflexivity).
  rewrite bind_ret_l, Hal, Z.sub_0_r.
  rewrite (@writeBytes_loop_iter oc chip dev fuel buf iter iter2) by lia.
  apply writeBytes_loop_addr_congr. symmetry. apply u32_mod_24.
Qed.

Lemma writeBytes_loop_split oc chip dev fuel buf iter1 :
  forall iter iter2 addr offset len1 len2 h,
    0 <= offset -> 0 <= len1 -> 0 <= len2 ->
    offset + len1 + len2 < 65536 ->
    (addr + len1) mod 256 = 0 ->
    (Z.to_nat len1 <= iter1)%nat ->
    (Z.to_nat (len1 + len2) <= iter)%nat ->
    (Z.to_nat len2 <= iter2)%nat ->
    writeBytes_loop oc chip dev iter fuel buf addr offset (len1 + len2)
                    (256 - addr mod 256) h
    = bind (writeBytes_loop oc chip dev iter1 fuel buf addr offset len1
                            (256 - addr mod 256))
           (fun _ => writeBytes_loop oc chip dev iter2 fuel buf
                       (u32 (addr + len1)) (offset + len1) len2 256) h.
Proof.
  induction iter1 as [|iter1 IH];
    intros iter iter2 addr offset len1 len2 h Hoff H1 H2 Hsum Hend
      Hi1 Hi Hi2;
    (destruct (Z.eq_dec len1 0) as [E0 | Hne];
     [subst len1; rewrite Z.add_0_l, !Z.add_0_r in *;
      apply writeBytes_loop_split_zero; (exact Hend || lia)
     |]); [lia|].
  pose proof (page_room addr) as Hroom.
  pose proof (@page_end_room addr len1 ltac:(lia) Hend) as Hfill.
  set (room := 256 - addr mod 256) in *.
  destruct iter as [|iter]; [lia|]. cbn [writeBytes_loop].
  replace (0 <? len1 + len2) with true by (symmetry; apply Z.ltb_lt; lia).
  replace (0 <? len1) with true by (symmetry; apply Z.ltb_lt; lia).
  replace (if len1 + len2 <=? room then len1 + len2 else room) with room
    by (destruct (Z.leb_spec (len1 + len2) room); lia).
  replace (if len1 <=? room then len1 else room) with room
    by (destruct (Z.leb_spec len1 room); lia).
  do 5 (rewrite bind_assoc; apply bind_ext; intros ? ?).
  rewrite bind_assoc. apply bind_ext. intros _ hk.
  assert (Hal : u32 (addr + room) mod 256 = 0).
  { rewrite u32_mod_256. unfold room.
    replace (addr + (256 - addr mod 256)) with ((addr / 256 + 1) * 256)
      by (pose proof (Z.div_mod addr 256 ltac:(lia)); lia).
    apply Z.mod_mul. lia. }
  replace (u16 (len1 + len2 - room)) with ((len1 - room) + len2)
    by (unfold u16; rewrite Z.mod_small; lia).
  replace (u16 (len1 - room)) with (len1 - room)
    by (unfold u16; rewrite Z.mod_small; lia).
  replace (u16 (offset + room)) with (offset + room)
    by (unfold u16; rewrite Z.mod_small; lia).
  replace (u32 (addr + len1)) with (u32 (u32 (addr + room) + (len1 - room)))
    by (rewrite u32_add_u32; f_equal; lia).
  replace (offset + len1) with (offset + room + (len1 - room)) by lia.
  assert (Hend' : (u32 (addr + room) + (len1 - room)) mod 256 = 0).
  { rewrite <- Z.add_mod_idemp_l, u32_mod_256, Z.add_mod_idemp_l by lia.
    replace (addr + room + (len1 - room)) with (addr + len1) by lia.
    exact Hend. }
  pose proof (IH iter iter2 (u32 (addr + room)) (offset + room)
                 (len1 - room) len2 hk ltac:(lia) ltac:(lia) ltac:(lia)
                 ltac:(lia) Hend' ltac:(lia) ltac:(lia) ltac:(lia)) as IH'.
  rewrite Hal, Z.sub_0_r in IH'. exact IH'.
Qed.

(** X12: a write may be cut at a page boundary.  If the first [n] bytes
    end where a page ends, writing [n + m] bytes in one call is writing
    the first [n] bytes and then the remaining [m] bytes in a second call:
    the same events on the bus and the same outcome. *)
Theorem writeBytes_splits_at_page_boundary oc chip dev fuel a buf n m h :
  0 <= n -> 0 <= m -> n + m < 65536 ->
  (a + n) mod 256 = 0 ->
  writeBytes oc chip dev fuel a buf (n + m) h
  = (writeBytes oc chip dev fuel a buf n ;;
     writeBytes oc chip dev fuel (a + n) (skipn (Z.to_nat n) buf) m) h.
Proof.
  intros Hn Hm Hsum Hend. unfold writeBytes.
  pose proof (page_room a) as Hroom.
  replace (u16 (256 - a mod 256)) with (256 - a mod 256)
    by (symmetry; apply Z.mod_small; lia).
  rewrite Hend. change (u16 (256 - 0)) with 256.
  rewrite (@writeBytes_loop_split oc chip dev fuel buf (Z.to_nat n)
             (Z.to_nat (n + m)) (Z.to_nat m)) by lia.
  apply bind_ext. intros _ h2.
  rewrite writeBytes_loop_skipn by lia.
  apply writeBytes_loop_addr_congr. apply u32_mod_24.
Qed.

(** ** Reading back what was written *)

Lemma in_progress_transfer h o i :
  in_progress (h ++ [Transfer o i])
  = option_map (fun c => c ++ [o]) (in_progress h).
Proof. unfold in_progress. rewrite fold_left_app. reflexivity. Qed.

Lemma in_progress_select h pin :
  in_progress (h ++ [BeginTransaction; DigitalWrite pin false]) = Some [].
Proof. unfold in_progress. rewrite fold_left_app. reflexivity. Qed.

Lemma in_progress_exchanges c : forall h,
  in_progress (h ++ map exchange c)
  = option_map (fun s => s ++ mosi c) (in_progress h).
Proof.
  induction c as [|[o i] c IH]; intros h.
  - cbn [map mosi]. rewrite app_nil_r.
    destruct (in_progress h); simpl; rewrite ?app_nil_r; reflexivity.
  - cbn [map]. change (h ++ exchange (o, i) :: map exchange c)
      with (h ++ [Transfer o i] ++ map exchange c).
    rewrite app_assoc, IH, in_progress_transfer.
    destruct (in_progress h); simpl; [|reflexivity].
    rewrite <- app_assoc. reflexivity.
Qed.

Lemma in_progress_opened dev h c :
  in_progress (h ++ opened dev c) = Some (mosi c).
Proof.
  unfold opened. rewrite app_assoc, in_progress_exchanges, in_progress_select.
  reflexivity.
Qed.

Lemma cycles_opened dev cs c :
  cycles (frames dev cs ++ opened dev c) = cs ++ [c].
Proof.
  rewrite cycles_frames_app. f_equal. unfold cycles, opened.
  cbn [app cycles_from flush].
  rewrite <- (app_nil_r (map exchange c)), cycles_from_exchanges.
  reflexivity.
Qed.

Section ReadBack.

Variable oc : Opcodes.
Variable chip : transcript -> Z -> Z.
Variable dev : SPIFlash.
Variable mem : memory.
Hypothesis Hoc : opcodes_ok oc = true.
Hypothesis Hready : never_busy oc chip.
Hypothesis Hread : streams_memory oc mem chip.

Lemma never_busy_responsive fuel :
  (1 <= fuel)%nat -> responsive oc chip dev fuel.
Proof.
  intros Hfuel h. destruct fuel as [|fuel]; [lia|].
  unfold gate_opens. cbn [while_busy].
  assert (E : u8 (SPIFLASH_STATUSREAD oc) = SPIFLASH_STATUSREAD oc)
    by op_byte.
  cbv [bind busy readStatus select unselect emit ret transfer]. rewrite E.
  match goal with
  | |- context [Z.land (u8 (chip ?hh ?out)) 1] =>
      rewrite (Hready hh out)
  end.
  - discriminate.
  - rewrite in_progress_transfer.
    change ([BeginTransaction] ++ [DigitalWrite (_slaveSelectPin dev) false])
      with [BeginTransaction; DigitalWrite (_slaveSelectPin dev) false].
    rewrite in_progress_select. reflexivity.
Qed.

(** The fillers of a fast read are answered from the memory as the
    complete cycles before the read left it. *)
Lemma repeatM_streams k : forall cs c a2 a1 a0 x data,
  mosi c = SPIFLASH_ARRAYREAD oc :: a2 :: a1 :: a0 :: x :: data ->
  exists d,
    repeatM k (transfer chip 0) (frames dev cs ++ opened dev c)
    = Some (map (fun i =>
                   u8 (program_chunks mem (keep_some (map (chunk_of oc) cs))
                         ((addr_of_bytes a2 a1 a0
                           + Z.of_nat (length data + i)) mod 16777216)))
                (seq 0 k), d).
Proof.
  induction k as [|k IH]; intros cs c a2 a1 a0 x data Hc.
  - exists []. reflexivity.
  - cbn [repeatM].
    set (hh := frames dev cs ++ opened dev c).
    set (m := u8 (chip hh (u8 0))).
    assert (Hm : m = u8 (program_chunks mem (keep_some (map (chunk_of oc) cs))
                           ((addr_of_bytes a2 a1 a0
                             + Z.of_nat (length data + 0)) mod 16777216))).
    { unfold m. rewrite (Hread hh (u8 0) (a2 := a2) (a1 := a1) (a0 := a0)
                           (x := x) (data := data)).
      - unfold contents, chunks, hh. rewrite cycles_opened.
        rewrite map_app, keep_some_app. cbn [map keep_some].
        replace (chunk_of oc c) with (@None (Z * list Z)).
        + cbn [keep_some]. rewrite app_nil_r, Nat.add_0_r. reflexivity.
        + unfold chunk_of. rewrite Hc.
          replace (SPIFLASH_ARRAYREAD oc =? SPIFLASH_BYTEPAGEPROGRAM oc)
            with false; [reflexivity|].
          symmetry. apply Z.eqb_neq. op_neq.
      - unfold hh. rewrite in_progress_opened. f_equal. exact Hc. }
    destruct (IH cs (c ++ [(0, m)]) a2 a1 a0 x (data ++ [0])) as (d & Hd).
    { unfold mosi in *. rewrite map_app, Hc. reflexivity. }
    exists ([exchange (u8 0, m)] ++ d ++ []).
    replace (frames dev cs ++ opened dev (c ++ [(0, m)]))
      with (hh ++ [exchange (u8 0, m)]) in Hd
      by (unfold hh, opened; rewrite map_app, <- !app_assoc; reflexivity).
    cbn [seq map]. rewrite <- Hm, <- seq_shift, map_map.
    erewrite map_ext; [|intros i; rewrite <- Nat.add_succ_comm;
                        replace (S (length data)) with (length (data ++ [0]))
                          by (rewrite length_app; simpl; lia);
                        reflexivity].
    eapply bind_run; [apply transfer_run|].
    eapply bind_run; [exact Hd | reflexivity].
Qed.

Lemma read_back_planned buf a n ks mem0 :
  planned buf a 0 n ks ->
  0 <= n < 65536 -> (Z.to_nat n <= length buf)%nat ->
  Forall (fun b => 0 <= b < 256) buf ->
  read_back (program_chunks mem0 ks) a (Z.to_nat n) = firstn (Z.to_nat n) buf.
Proof.
  intros Hplan Hn Hlen Hbytes.
  assert (Hpay : payloads ks = firstn (Z.to_nat n) buf).
  { rewrite (planned_payloads Hplan), buf_slice_firstn by exact Hlen.
    apply map_u8_bytes, Forall_firstn_of. exact Hbytes. }
  rewrite (program_chunks_flat ks mem0 a (planned_consecutive Hplan)), Hpay.
  assert (Hn' : length (firstn (Z.to_nat n) buf) = Z.to_nat n).
  { rewrite length_firstn. lia. }
  pose proof (@read_back_stored (firstn (Z.to_nat n) buf) mem0 a) as Hrb.
  rewrite Hn' in Hrb. apply Hrb. lia.
Qed.

End ReadBack.

(** X13: what [writeBytes] writes, [readBytes] reads back.  On a chip
    that answers status polls not busy, stores what is page-programmed and
    streams its memory to a fast read, after any sequence of complete
    command cycles: [writeBytes] of the first [n] bytes of a buffer at
    [a] returns, and [readBytes] of [n] bytes at [a] right after it
    returns those bytes. *)
Theorem readBytes_after_writeBytes oc chip dev mem fuel a buf n cs0 :
  opcodes_ok oc = true ->
  (1 <= fuel)%nat ->
  never_busy oc chip ->
  streams_memory oc mem chip ->
  0 <= n < 65536 ->
  (Z.to_nat n <= length buf)%nat ->
  Forall (fun b => 0 <= b < 256) buf ->
  exists d d',
    writeBytes oc chip dev fuel a buf n (frames dev cs0) = Some (tt, d)
    /\ readBytes oc chip dev fuel a n (frames dev cs0 ++ d)
       = Some (firstn (Z.to_nat n) buf, d').
Proof.
  intros Hoc Hfuel Hready Hread Hn Hlen Hbytes.
  pose proof (@never_busy_responsive oc chip dev Hoc Hready fuel Hfuel)
    as Hresp.
  destruct (writeBytes oc chip dev fuel a buf n (frames dev cs0))
    as [[[] d]|] eqn:Hw.
  2:{ exfalso. revert Hw. apply total_writeBytes; assumption. }
  exists d.
  destruct (@writeBytes_Some oc chip dev Hoc fuel a buf n _ tt d Hn Hw)
    as (cs & -> & Hprog).
  apply programmed_planned in Hprog.
  rewrite <- frames_app.
  destruct (readBytes oc chip dev fuel a n (frames dev (cs0 ++ cs)))
    as [[got d']|] eqn:Hr.
  2:{ exfalso. revert Hr.
      apply (@readBytes_returns_iff oc chip dev Hoc). apply Hresp. }
  exists d'. split; [reflexivity|]. do 2 f_equal.
  unfold readBytes in Hr.
  apply bind_Some in Hr. destruct Hr as (u & d1 & r1 & Hcmd & Hr & _).
  apply (@command_Some oc chip dev Hoc) in Hcmd.
  2:{ replace (u8 (SPIFLASH_ARRAYREAD oc)) with (SPIFLASH_ARRAYREAD oc)
        by (symmetry; op_byte).
      op_neq. }
  destruct Hcmd as (pre & r & -> & Hpre & _).
  replace (u8 (SPIFLASH_ARRAYREAD oc)) with (SPIFLASH_ARRAYREAD oc) in *
    by (symmetry; op_byte).
  apply bind_Some in Hr. destruct Hr as (m2 & e2 & r2 & H2 & Hr & _).
  apply transfer_Some in H2. destruct H2 as [-> _].
  apply bind_Some in Hr. destruct Hr as (m1 & e1 & r3 & H1 & Hr & _).
  apply transfer_Some in H1. destruct H1 as [-> _].
  apply bind_Some in Hr. destruct Hr as (m0 & e0 & r4 & H0 & Hr & _).
  apply transfer_Some in H0. destruct H0 as [-> _].
  apply bind_Some in Hr. destruct Hr as (mx & ex & r5 & Hx & Hr & _).
  apply transfer_Some in Hx. destruct Hx as [-> _].
  apply bind_Some in Hr. destruct Hr as (got' & e6 & r6 & Hrep & Hr & _).
  apply bind_Some in Hr. destruct Hr as (? & ? & ? & _ & Hret & _).
  injection Hret as <- _.
  set (c := [(SPIFLASH_ARRAYREAD oc, r); (u8 (Z.shiftr a 16), m2);
             (u8 (Z.shiftr a 8), m1); (u8 a, m0); (u8 0, mx)]).
  match type of Hrep with
  | repeatM _ _ ?hh = _ =>
      replace hh with (frames dev ((cs0 ++ cs) ++ pre) ++ opened dev c)
        in Hrep
        by (unfold opened, c; rewrite (frames_app dev (cs0 ++ cs) pre);
            cbn [map app]; rewrite <- !app_assoc; reflexivity)
  end.
  destruct (@repeatM_streams oc chip dev mem Hoc Hread (Z.to_nat n)
              ((cs0 ++ cs) ++ pre) c _ _ _ _ [] eq_refl) as (d6 & E).
  rewrite E in Hrep. injection Hrep as <- _.
  rewrite !map_app, !keep_some_app, (prelude_no_chunk Hpre), app_nil_r.
  unfold program_chunks. rewrite fold_left_app.
  fold (program_chunks mem (keep_some (map (chunk_of oc) cs0))).
  set (mem0 := program_chunks mem (keep_some (map (chunk_of oc) cs0))).
  fold (program_chunks mem0 (keep_some (map (chunk_of oc) cs))).
  pose proof (@read_back_planned buf a n _ mem0 Hprog Hn Hlen Hbytes) as Hrb.
  rewrite <- (@map_u8_bytes (firstn (Z.to_nat n) buf))
    by (apply Forall_firstn_of; exact Hbytes).
  rewrite <- Hrb. unfold read_back. rewrite map_map. apply map_ext. intros i.
  do 2 f_equal.
  pose proof (addr_bytes_mosi a) as Hab. unfold addr_bytes in Hab.
  injection Hab as -> -> ->. rewrite addr_of_addr_bytes.
  apply Z.add_mod_idemp_l. lia.
Qed.

(** * The further properties at concrete inputs *)

Lemma stuck_chip_always_busy : always_busy stuck_chip.
Proof. intros h out. vm_compute. discriminate. Qed.

(** A chip with identifier [0xEF30] answers [0xEF], then [0x30]. *)
Lemma readDeviceId_high_byte_first_witness :
  readDeviceId w25x_opcodes (rom_chip w25x_opcodes 0xEF30 (fun _ => 255))
               (test_dev 0) []
  = Some (0xEF30, frame (test_dev 0) [(0x9F, 0); (0, 0xEF); (0, 0x30)])
  /\ exists id r hi lo,
       readDeviceId w25x_opcodes (rom_chip w25x_opcodes 0xEF30 (fun _ => 255))
                    (test_dev 0) []
       = Some (id, frame (test_dev 0)
                         [(SPIFLASH_IDREAD w25x_opcodes, r); (0, hi); (0, lo)])
       /\ 0 <= id < 65536
       /\ 0 <= hi < 256 /\ 0 <= lo < 256
       /\ id / 256 = hi /\ id mod 256 = lo.
Proof.
  split; [reflexivity|].
  apply (@readDeviceId_high_byte_first w25x_opcodes
           (rom_chip w25x_opcodes 0xEF30 (fun _ => 255)) (test_dev 0) []
           eq_refl).
Defined.

(** A memory that holds at each address its low byte: the byte at
    [0x012345] is [0x45]. *)
Lemma readByte_returns_the_fifth_answer_witness :
  exists d,
    readByte w25x_opcodes (rom_chip w25x_opcodes 0 (fun a => a mod 256))
             (test_dev 0) 1 0x012345 []
    = Some (0x45, d)
    /\ commands d = [0x05; 0x03]
    /\ exists g c,
         d = frames (test_dev 0) (g ++ [c]) /\ busy_wait w25x_opcodes g
         /\ mosi c = [0x03; 0x01; 0x23; 0x45; 0]
         /\ exists answers, miso c = answers ++ [0x45]
                            /\ length answers = 4%nat.
Proof.
  eexists. split; [vm_compute; reflexivity|]. split; [reflexivity|].
  apply (proj2 (@readByte_returns_the_fifth_answer w25x_opcodes
                  (rom_chip w25x_opcodes 0 (fun a => a mod 256))
                  (test_dev 0) 1 0x012345 [] eq_refl)
               0x45 _ ltac:(vm_compute; reflexivity)).
Defined.

Lemma readBytes_returns_the_answers_witness :
  exists d,
    readBytes w25x_opcodes (rom_chip w25x_opcodes 0 (fun a => a mod 256))
              (test_dev 0) 1 0x0000FE 3 []
    = Some ([0xFE; 0xFF; 0x00], d)
    /\ commands d = [0x05; 0x0B]
    /\ exists g c answers,
         d = frames (test_dev 0) (g ++ [c]) /\ busy_wait w25x_opcodes g
         /\ mosi c = [0x0B; 0x00; 0x00; 0xFE; 0; 0; 0; 0]
         /\ miso c = answers ++ [0xFE; 0xFF; 0x00]
         /\ length answers = 5%nat.
Proof.
  eexists. split; [vm_compute; reflexivity|]. split; [reflexivity|].
  apply (proj2 (@readBytes_returns_the_answers w25x_opcodes
                  (rom_chip w25x_opcodes 0 (fun a => a mod 256))
                  (test_dev 0) 1 0x0000FE 3 [] eq_refl)
               [0xFE; 0xFF; 0x00] _ ltac:(vm_compute; reflexivity)).
Defined.

Lemma readUniqueId_returns_eight_bytes_witness :
  exists d,
    readUniqueId w25x_opcodes stuck_chip (test_dev 0) 1 [] = None
    /\ readUniqueId w25x_opcodes idle_chip (test_dev 0) 1 []
       = Some (repeat 0 8, d)
    /\ commands d = [0x05; 0x4B]
    /\ exists g c answers,
         d = frames (test_dev 0) (g ++ [c]) /\ busy_wait w25x_opcodes g
         /\ mosi c = 0x4B :: repeat 0 12
         /\ miso c = answers ++ repeat 0 8 /\ length answers = 5%nat.
Proof.
  eexists. split; [reflexivity|].
  split; [vm_compute; reflexivity|]. split; [reflexivity|].
  apply (proj2 (@readUniqueId_returns_eight_bytes w25x_opcodes idle_chip
                  (test_dev 0) 1 [] eq_refl)
               (repeat 0 8) _ ltac:(vm_compute; reflexivity)).
Defined.

(** A chip that always reads busy is woken all the same; it cannot be put
    to sleep. *)
Lemma wakeup_never_waits_sleep_does_witness :
  (exists r, wakeup w25x_opcodes stuck_chip (test_dev 0) 3 []
             = Some (tt, frame (test_dev 0) [(0xAB, r)]))
  /\ sleep w25x_opcodes stuck_chip (test_dev 0) 3 [] = None
  /\ ~ gate_opens w25x_opcodes stuck_chip (test_dev 0) 3 [].
Proof.
  pose proof (@wakeup_never_waits_sleep_does w25x_opcodes stuck_chip
                (test_dev 0) 3 [] eq_refl) as (Hw & Hs & _).
  split; [exact Hw|]. split; [reflexivity|].
  intros Hg. apply Hs in Hg. apply Hg. reflexivity.
Defined.

Lemma command_returns_with_chip_selected_witness :
  exists d,
    command w25x_opcodes idle_chip (test_dev 0) 1 0x02 true [] = Some (tt, d)
    /\ commands d = [0x05; 0x06; 0x05; 0x02]
    /\ bus_run released d = Some acquired
    /\ bus_run released (d ++ closing (test_dev 0)) = Some released.
Proof.
  eexists. split; [vm_compute; reflexivity|]. split; [reflexivity|].
  apply (@command_returns_with_chip_selected w25x_opcodes idle_chip
           (test_dev 0) 1 0x02 true [] _ eq_refl).
  vm_compute. reflexivity.
Defined.

(** With the data line stuck high a chip erase never returns, however
    long it polls; [found] returns, and [initialize] reports failure. *)
Lemma busy_chip_hangs_gated_operations_witness :
  perform w25x_opcodes stuck_chip (test_dev 0xEF30) 1000 ChipErase [] = None
  /\ perform w25x_opcodes stuck_chip (test_dev 0xEF30) 1000 Found [] <> None
  /\ exists d,
       initialize w25x_opcodes stuck_chip (test_dev 0xEF30) 1000 []
       = Some (false, d).
Proof.
  pose proof (@busy_chip_hangs_gated_operations w25x_opcodes stuck_chip
                (test_dev 0xEF30) 1000 ChipErase [] eq_refl
                stuck_chip_always_busy) as (Hw & _ & Hi).
  pose proof (@busy_chip_hangs_gated_operations w25x_opcodes stuck_chip
                (test_dev 0xEF30) 1000 Found [] eq_refl
                stuck_chip_always_busy) as (_ & Hn & _).
  split; [apply Hw; reflexivity|]. split; [apply Hn; reflexivity|].
  destruct (initialize w25x_opcodes stuck_chip (test_dev 0xEF30) 1000 [])
    as [[b d]|] eqn:E; [|vm_compute in E; discriminate E].
  destruct (Hi b d eq_refl) as [-> _]. exists d. reflexivity.
Defined.

Lemma initialize_failure_does_not_wait_witness :
  exists d,
    initialize w25x_opcodes (rom_chip w25x_opcodes 0x1234 (fun _ => 255))
               (test_dev 0xEF30) 0 []
    = Some (false, d)
    /\ commands d = [0xAB; 0x9F]
    /\ forall fuel',
         initialize w25x_opcodes (rom_chip w25x_opcodes 0x1234 (fun _ => 255))
                    (test_dev 0xEF30) fuel' []
         = Some (false, d).
Proof.
  eexists. split; [vm_compute; reflexivity|]. split; [reflexivity|].
  destruct (@initialize_failure_does_not_wait w25x_opcodes
              (rom_chip w25x_opcodes 0x1234 (fun _ => 255))
              (test_dev 0xEF30) 0 [] false _ eq_refl
              ltac:(vm_compute; reflexivity))
    as (rw & rest & _ & H).
  destruct (H eq_refl) as (_ & _ & Hfuel). exact Hfuel.
Defined.

(** Address [0x1000010] is address [0x10] on the bus. *)
Lemma address_bits_above_23_are_ignored_witness :
  0x1000010 mod 16777216 = 0x10 mod 16777216
  /\ readByte w25x_opcodes idle_chip (test_dev 0) 1 0x1000010 []
     = readByte w25x_opcodes idle_chip (test_dev 0) 1 0x10 []
  /\ writeBytes w25x_opcodes idle_chip (test_dev 0) 1 0x1000010 [1; 2] 2 []
     = writeBytes w25x_opcodes idle_chip (test_dev 0) 1 0x10 [1; 2] 2 [].
Proof.
  split; [reflexivity|].
  destruct (@address_bits_above_23_are_ignored w25x_opcodes idle_chip
              (test_dev 0) 1 0x1000010 0x10 [] eq_refl)
    as (Hr & _ & _ & Hw & _).
  split; [exact Hr | apply Hw].
Defined.

(** Six hundred bytes from [0xF0] touch four pages: 16 bytes, two whole
    pages and 72 bytes. *)
Lemma writeBytes_one_chunk_per_page_witness :
  writeBytes w25x_opcodes idle_chip (test_dev 0) 1 0xF0 (repeat 7 1500) 1500 []
  <> None
  /\ exists d,
       writeBytes w25x_opcodes idle_chip (test_dev 0) 1 0xF0 (repeat 7 600)
                  600 []
       = Some (tt, d)
       /\ map chunk_len (chunks w25x_opcodes d) = [16; 256; 256; 72]
       /\ Z.of_nat (length (chunks w25x_opcodes d))
          = (0xF0 + 600 - 1) / 256 - 0xF0 / 256 + 1
       /\ length (filter (has_opcode 0x02) (cycles d))
          = length (chunks w25x_opcodes d)
       /\ Forall (fun k => (chunk_start k + chunk_len k) mod 256 = 0)
                 (removelast (chunks w25x_opcodes d))
       /\ Forall (fun k => chunk_start k mod 256 = 0 /\ chunk_len k = 256)
                 (middle (chunks w25x_opcodes d)).
Proof.
  split.
  - apply (proj1 (@writeBytes_one_chunk_per_page w25x_opcodes idle_chip
                    (test_dev 0) 1 0xF0 (repeat 7 1500) 1500 [] eq_refl
                    ltac:(lia))).
    apply idle_chip_responsive.
  - eexists. split; [vm_compute; reflexivity|].
    split; [vm_compute; reflexivity|].
    apply (proj2 (@writeBytes_one_chunk_per_page w25x_opcodes idle_chip
                    (test_dev 0) 1 0xF0 (repeat 7 600) 600 [] eq_refl
                    ltac:(lia))).
    vm_compute. reflexivity.
Defined.

(** Five bytes at [0xFE] are two bytes at [0xFE] and three at [0x100]. *)
Lemma writeBytes_splits_at_page_boundary_witness :
  (0xFE + 2) mod 256 = 0
  /\ writeBytes w25x_opcodes idle_chip (test_dev 0) 1 0xFE [1; 2; 3; 4; 5]
                (2 + 3) []
     = (writeBytes w25x_opcodes idle_chip (test_dev 0) 1 0xFE
                   [1; 2; 3; 4; 5] 2 ;;
        writeBytes w25x_opcodes idle_chip (test_dev 0) 1 (0xFE + 2)
                   (skipn (Z.to_nat 2) [1; 2; 3; 4; 5]) 3) [].
Proof.
  split; [reflexivity|].
  apply (@writeBytes_splits_at_page_boundary w25x_opcodes idle_chip
           (test_dev 0) 1 0xFE [1; 2; 3; 4; 5] 2 3 []);
    (lia || reflexivity).
Defined.

Lemma flash_chip_never_busy oc mem : never_busy oc (flash_chip oc mem).
Proof. intros h out E. unfold flash_chip. rewrite E. reflexivity. Qed.

Lemma flash_chip_streams_memory oc mem :
  streams_memory oc mem (flash_chip oc mem).
Proof.
  intros h out a2 a1 a0 x data E. unfold flash_chip.
  rewrite E, Z.eqb_refl. reflexivity.
Qed.

(** Five bytes written across the page boundary at [0x100] into an
    erased chip are read back. *)
Lemma readBytes_after_writeBytes_witness :
  exists d d',
    writeBytes w25x_opcodes (flash_chip w25x_opcodes (fun _ => 255))
               (test_dev 0) 1 0xFE [1; 2; 3; 4; 5] 5 []
    = Some (tt, d)
    /\ readBytes w25x_opcodes (flash_chip w25x_opcodes (fun _ => 255))
                 (test_dev 0) 1 0xFE 5 d
       = Some ([1; 2; 3; 4; 5], d').
Proof.
  apply (@readBytes_after_writeBytes w25x_opcodes
           (flash_chip w25x_opcodes (fun _ => 255)) (test_dev 0)
           (fun _ => 255) 1 0xFE [1; 2; 3; 4; 5] 5 [] eq_refl
           ltac:(lia)
           (flash_chip_never_busy w25x_opcodes (fun _ => 255))
           (flash_chip_streams_memory w25x_opcodes (fun _ => 255))
           ltac:(lia) ltac:(simpl; lia)
           ltac:(repeat constructor; lia)).
Defined.
